(** * Folder Mover: matcher, destination resolver, move engine and report labels

    A shallow embedding of [folder_mover/types.py], [folder_mover/indexer.py],
    [folder_mover/mover.py] and the labelling part of [folder_mover/report.py].

    Python strings are [string]; [dict]s and [set]s are stdpp's [gmap] and
    [gset]; a function that may raise returns a [result]; code that touches
    the disk threads a file-system value.  Logging is left out. *)

From Stdlib Require Import ZArith Lia Ascii String.
From stdpp Require Import base decidable option list strings pretty gmap.

Local Open Scope string_scope.
Local Open Scope list_scope.

(** ** Python exceptions and the error monad *)

Inductive exn_class :=
  | RuntimeError | OSError | ValueError | IndexError | KeyError | AttributeError.

Global Instance exn_class_eq_dec : EqDecision exn_class.
Proof. solve_decision. Defined.

Definition exn_name (c : exn_class) : string :=
  match c with
  | RuntimeError => "RuntimeError"
  | OSError => "OSError"
  | ValueError => "ValueError"
  | IndexError => "IndexError"
  | KeyError => "KeyError"
  | AttributeError => "AttributeError"
  end.

Record exn := Exn { exn_type : exn_class; exn_msg : string }.

Inductive result (A : Type) :=
  | Ok (a : A)
  | Raise (e : exn).
Arguments Ok {A} a.
Arguments Raise {A} e.

Global Instance result_ret : MRet result := λ A a, Ok a.
Global Instance result_bind : MBind result := λ A B k m,
  match m with
  | Ok a => k a
  | Raise e => Raise e
  end.

Definition is_ok {A} (m : result A) : bool :=
  match m with Ok _ => true | Raise _ => false end.

(** ** Python string primitives *)

(** [p in s] on strings: [p] occurs in [s] as a contiguous substring. *)
Fixpoint startswith (p s : string) : bool :=
  match p, s with
  | EmptyString, _ => true
  | String a p', String b s' => if Ascii.eqb a b then startswith p' s' else false
  | String _ _, EmptyString => false
  end.

Fixpoint str_contains (p s : string) : bool :=
  match s with
  | EmptyString => startswith p s
  | String _ s' => startswith p s || str_contains p s'
  end.

(** [bool(s)] of a string: the empty string is falsy. *)
Definition truthy (s : string) : bool :=
  match s with EmptyString => false | _ => true end.

(** ** types.py *)

Record FolderEntry := mkFolderEntry { name : string; path : string }.

Inductive MoveStatus :=
  | SUCCESS | SUCCESS_RENAMED
  | SKIPPED_MISSING | SKIPPED_EXISTS | SKIPPED_EXCLUDED | SKIPPED_RESUME
  | SKIPPED_DUPLICATE
  | ERROR
  | DRY_RUN | DRY_RUN_RENAMED
  | QUARANTINED | QUARANTINED_RENAMED
  | DRY_RUN_QUARANTINE | DRY_RUN_QUARANTINE_RENAMED.

Global Instance MoveStatus_eq_dec : EqDecision MoveStatus.
Proof. solve_decision. Defined.

Record FolderMatch := mkFolderMatch {
  case_id : string;
  source_path : string;
  folder_name : string
}.

Record MoveResult := mkMoveResult {
  mr_case_id : string;
  mr_source_path : string;
  mr_dest_path : option string;
  mr_status : MoveStatus;
  mr_message : string
}.

Inductive ReportStatus :=
  | MOVED | MOVED_RENAMED | FOUND_DRYRUN | FOUND_DRYRUN_RENAMED
  | NOT_FOUND | MULTIPLE_MATCHES
  | R_SKIPPED_MISSING | R_SKIPPED_EXISTS | R_SKIPPED_EXCLUDED | R_SKIPPED_RESUME
  | R_SKIPPED_DUPLICATE | R_ERROR
  | R_QUARANTINED | R_QUARANTINED_RENAMED
  | FOUND_DRYRUN_QUARANTINE | FOUND_DRYRUN_QUARANTINE_RENAMED.

Global Instance ReportStatus_eq_dec : EqDecision ReportStatus.
Proof. solve_decision. Defined.

(** The [value] of a [ReportStatus] member, the text of the report's
    status column. *)
Definition report_value (r : ReportStatus) : string :=
  match r with
  | MOVED => "MOVED"
  | MOVED_RENAMED => "MOVED_RENAMED"
  | FOUND_DRYRUN => "FOUND_DRYRUN"
  | FOUND_DRYRUN_RENAMED => "FOUND_DRYRUN_RENAMED"
  | NOT_FOUND => "NOT_FOUND"
  | MULTIPLE_MATCHES => "MULTIPLE_MATCHES"
  | R_SKIPPED_MISSING => "SKIPPED_MISSING"
  | R_SKIPPED_EXISTS => "SKIPPED_EXISTS"
  | R_SKIPPED_EXCLUDED => "SKIPPED_EXCLUDED"
  | R_SKIPPED_RESUME => "SKIPPED_RESUME"
  | R_SKIPPED_DUPLICATE => "SKIPPED_DUPLICATE"
  | R_ERROR => "ERROR"
  | R_QUARANTINED => "QUARANTINED"
  | R_QUARANTINED_RENAMED => "QUARANTINED_RENAMED"
  | FOUND_DRYRUN_QUARANTINE => "FOUND_DRYRUN_QUARANTINE"
  | FOUND_DRYRUN_QUARANTINE_RENAMED => "FOUND_DRYRUN_QUARANTINE_RENAMED"
  end.

(** [ReportStatus.from_move_status] *)
Definition from_move_status (status : MoveStatus) (is_multiple : bool)
    : ReportStatus :=
  if is_multiple &&
     bool_decide (status ∈ [SUCCESS; SUCCESS_RENAMED; DRY_RUN; DRY_RUN_RENAMED])
  then MULTIPLE_MATCHES
  else
    match status with
    | SUCCESS => MOVED
    | SUCCESS_RENAMED => MOVED_RENAMED
    | SKIPPED_MISSING => R_SKIPPED_MISSING
    | SKIPPED_EXISTS => R_SKIPPED_EXISTS
    | SKIPPED_EXCLUDED => R_SKIPPED_EXCLUDED
    | SKIPPED_RESUME => R_SKIPPED_RESUME
    | SKIPPED_DUPLICATE => R_SKIPPED_DUPLICATE
    | ERROR => R_ERROR
    | DRY_RUN => FOUND_DRYRUN
    | DRY_RUN_RENAMED => FOUND_DRYRUN_RENAMED
    | QUARANTINED => R_QUARANTINED
    | QUARANTINED_RENAMED => R_QUARANTINED_RENAMED
    | DRY_RUN_QUARANTINE => FOUND_DRYRUN_QUARANTINE
    | DRY_RUN_QUARANTINE_RENAMED => FOUND_DRYRUN_QUARANTINE_RENAMED
    end.

Record ReportEntry := mkReportEntry {
  re_timestamp : string;
  re_case_id : string;
  re_status : string;
  re_source_path : string;
  re_dest_path : string;
  re_message : string
}.

(** ** report.py: the entry [ReportWriter.write_move_result] builds *)

Definition quarantine_statuses : list MoveStatus :=
  [QUARANTINED; QUARANTINED_RENAMED; DRY_RUN_QUARANTINE;
   DRY_RUN_QUARANTINE_RENAMED].

(** The [report_status] chosen by [write_move_result]. *)
Definition report_status_of (status : MoveStatus) (is_multiple_match : bool)
    : ReportStatus :=
  if bool_decide (status ∈ quarantine_statuses) then
    from_move_status status false
  else if is_multiple_match then MULTIPLE_MATCHES
  else from_move_status status false.

Definition report_message_of (r : MoveResult) (is_multiple_match : bool)
    : string :=
  if is_multiple_match then "[Multiple matches] " +:+ mr_message r
  else mr_message r.

(** The entry handed to [write_entry]; [timestamp] is the caller's or the
    clock's. *)
Definition write_move_result (r : MoveResult) (is_multiple_match : bool)
    (timestamp : string) : ReportEntry :=
  {| re_timestamp := timestamp;
     re_case_id := mr_case_id r;
     re_status := report_value (report_status_of (mr_status r) is_multiple_match);
     re_source_path := mr_source_path r;
     re_dest_path := default "" (mr_dest_path r);
     re_message := report_message_of r is_multiple_match |}.

(** ** The environment of the engine

    What the modules take from outside the repository's matcher and mover:
    the platform, [pathlib], [os], [shutil], [fnmatch], [str.lower], and the
    helpers of [utils.py] ([normalize_path], [to_extended_length_path],
    [safe_move]).  [fs] is the state of the disk. *)

Class Env := {
  fs : Type;
  (** [sys.platform == "win32"] *)
  win32 : bool;
  (** [str.lower] *)
  lower : string → string;
  (** The order in which [for x in set(xs)] visits the set. *)
  set_order : list string → list string;
  (** [fnmatch.fnmatch name pattern] *)
  fnmatch : string → string → bool;
  (** [utils.normalize_path]; the callers guard it with
      [except (OSError, ValueError)], so it may raise. *)
  normalize_path : string → result string;
  (** [utils.to_extended_length_path] *)
  to_extended_length_path : string → string;
  (** [str(Path(d) / n)] *)
  path_join : string → string → string;
  (** [Path(p).name] *)
  path_name : string → string;
  (** [str(Path(p).parent)] *)
  path_parent : string → string;
  (** [os.path.exists], also [Path.exists] *)
  os_path_exists : fs → string → bool;
  (** [os.path.isdir] *)
  os_path_isdir : fs → string → bool;
  (** [os.makedirs(p, exist_ok=True)]; [Raise] is its [OSError]. *)
  os_makedirs : fs → string → result fs;
  (** [utils.safe_move(src, dest, use_extended_paths=True)]: the pair
      [(success, message)] and the disk afterwards. *)
  safe_move : fs → string → string → bool * string * fs
}.

(** ** mover.py *)

Inductive DestExistsBehavior := on_rename | on_skip.
Inductive DuplicatesAction := dup_quarantine | dup_skip | dup_move_all.

Global Instance DestExistsBehavior_eq_dec : EqDecision DestExistsBehavior.
Proof. solve_decision. Defined.
Global Instance DuplicatesAction_eq_dec : EqDecision DuplicatesAction.
Proof. solve_decision. Defined.

Definition DUPLICATES_FOLDER : string := "_DUPLICATES".

(** The statuses [move_all] counts as an operation. *)
Definition OP_STATUSES : list MoveStatus :=
  [SUCCESS; SUCCESS_RENAMED; QUARANTINED; QUARANTINED_RENAMED;
   DRY_RUN; DRY_RUN_RENAMED; DRY_RUN_QUARANTINE; DRY_RUN_QUARANTINE_RENAMED].

Section mover.
Context `{Env}.

(** [matches_exclusion_pattern]: the first pattern that matches, as a glob
    or as a substring, both case-folded. *)
Fixpoint matches_exclusion_pattern (folder_name : string)
    (patterns : list string) : option string :=
  match patterns with
  | [] => None
  | pattern :: rest =>
      let folder_lower := lower folder_name in
      let pattern_lower := lower pattern in
      if fnmatch folder_lower pattern_lower then Some pattern
      else if str_contains pattern_lower folder_lower then Some pattern
      else matches_exclusion_pattern folder_name rest
  end.

(** [_path_exists] of [resolve_destination]. *)
Definition path_exists (disk : fs) (p : string) : bool :=
  os_path_exists disk (if win32 then to_extended_length_path p else p).

(** [f"{folder_name}_{counter}"] *)
Definition suffixed (folder_name : string) (counter : nat) : string :=
  folder_name +:+ "_" +:+ pretty counter.

Definition exhausted (folder_name : string) : exn :=
  Exn RuntimeError
    ("Could not find unique name for '" +:+ folder_name +:+
     "' after 10000 attempts").

(** The [while True] loop of [resolve_destination], [limit] being its
    constant 10000.  [fuel] bounds the recursion only; the loop leaves
    through its own [counter > limit] test.  The set of claimed names is
    threaded through and handed back, as the caller's set object is after
    the call. *)
Fixpoint resolve_loop (fuel limit : nat) (disk : fs)
    (dest_root_str folder_name : string)
    (existing_names : gset string) (counter : nat)
    : result string * gset string :=
  match fuel with
  | 0 => (Raise (exhausted folder_name), existing_names)
  | S fuel' =>
      let suffixed_name := suffixed folder_name counter in
      let candidate := path_join dest_root_str suffixed_name in
      if negb (path_exists disk candidate) &&
         negb (bool_decide (suffixed_name ∈ existing_names))
      then (Ok candidate, existing_names)
      else
        let counter := counter + 1 in
        if bool_decide (limit < counter)
        then (Raise (exhausted folder_name), existing_names)
        else resolve_loop fuel' limit disk dest_root_str folder_name
               existing_names counter
  end.

Definition ATTEMPTS : nat := 10000.

(** [resolve_destination dest_root folder_name existing_names]: the result
    and the caller's [existing_names] set after the call.  ([existing_names
    or set()] reads the caller's set or, when that is empty, a fresh empty
    one: the same value.) *)
Definition resolve_destination (disk : fs) (dest_root folder_name : string)
    (existing_names : gset string) : result string * gset string :=
  match normalize_path dest_root with
  | Raise e => (Raise e, existing_names)
  | Ok dest_root_str =>
      let candidate := path_join dest_root_str folder_name in
      if negb (path_exists disk candidate) &&
         negb (bool_decide (folder_name ∈ existing_names))
      then (Ok candidate, existing_names)
      else resolve_loop ATTEMPTS ATTEMPTS disk dest_root_str folder_name
             existing_names 1
  end.

(** The module-level [move_folder src_path dest_path dry_run]: the outcome
    (its [case_id] left empty for the caller) and the disk afterwards. *)
Definition move_folder (disk : fs) (src_path dest_path : string)
    (dry_run : bool) : result (MoveResult * fs) :=
  src_str ← normalize_path src_path;
  dest_str ← normalize_path dest_path;
  let src_check := if win32 then to_extended_length_path src_str else src_str in
  let dest_check := if win32 then to_extended_length_path dest_str else dest_str in
  if negb (os_path_exists disk src_check) then
    Ok (mkMoveResult "" src_str None SKIPPED_MISSING
          "Source folder no longer exists (may have been moved already)", disk)
  else if negb (os_path_isdir disk src_check) then
    Ok (mkMoveResult "" src_str None ERROR "Source path is not a directory", disk)
  else if os_path_exists disk dest_check then
    Ok (mkMoveResult "" src_str (Some dest_str) SKIPPED_EXISTS
          "Destination already exists", disk)
  else if dry_run then
    Ok (mkMoveResult "" src_str (Some dest_str) DRY_RUN
          ("Would move to " +:+ dest_str), disk)
  else
    let dest_parent := path_parent dest_str in
    let dest_parent_check :=
      if win32 then to_extended_length_path dest_parent else dest_parent in
    match os_makedirs disk dest_parent_check with
    | Raise e =>
        if bool_decide (exn_type e = OSError) then
          Ok (mkMoveResult "" src_str (Some dest_str) ERROR
                ("Cannot create destination directory: " +:+ exn_msg e), disk)
        else Raise e
    | Ok disk1 =>
        let '(success, message, disk2) := safe_move disk1 src_str dest_str in
        if (success : bool) then
          Ok (mkMoveResult "" src_str (Some dest_str) SUCCESS message, disk2)
        else
          Ok (mkMoveResult "" src_str (Some dest_str) ERROR message, disk2)
    end.

End mover.

(** *** class FolderMover *)

Module FolderMover.
Section methods.
Context `{Env}.

Record t := mk {
  dest_root : string;
  dry_run : bool;
  max_moves : option Z;
  exclude_patterns : list string;
  on_dest_exists : DestExistsBehavior;
  already_moved_paths : gset string;
  duplicates_action : DuplicatesAction;
  duplicate_case_ids : gset string;
  normalized_moved_paths : gset string;
  claimed_names : gset string;
  quarantine_claimed : gmap string (gset string);
  stats : MoveStatus → nat
}.

(** [self._stats[status] += 1] *)
Definition count_status (self : t) (status : MoveStatus) : t :=
  mk (dest_root self) (dry_run self) (max_moves self) (exclude_patterns self)
     (on_dest_exists self) (already_moved_paths self) (duplicates_action self)
     (duplicate_case_ids self) (normalized_moved_paths self)
     (claimed_names self) (quarantine_claimed self)
     (λ s, if decide (s = status) then S (stats self s) else stats self s).

(** [self._claimed_names.add(dest_name)] *)
Definition claim (self : t) (dest_name : string) : t :=
  mk (dest_root self) (dry_run self) (max_moves self) (exclude_patterns self)
     (on_dest_exists self) (already_moved_paths self) (duplicates_action self)
     (duplicate_case_ids self) (normalized_moved_paths self)
     ({[dest_name]} ∪ claimed_names self) (quarantine_claimed self)
     (stats self).

(** Assignment to [self._quarantine_claimed]. *)
Definition set_quarantine_claimed (self : t)
    (q : gmap string (gset string)) : t :=
  mk (dest_root self) (dry_run self) (max_moves self) (exclude_patterns self)
     (on_dest_exists self) (already_moved_paths self) (duplicates_action self)
     (duplicate_case_ids self) (normalized_moved_paths self)
     (claimed_names self) q (stats self).

(** The engine built from the same arguments but for [dry_run]. *)
Definition with_dry_run (self : t) (dry : bool) : t :=
  mk (dest_root self) dry (max_moves self) (exclude_patterns self)
     (on_dest_exists self) (already_moved_paths self) (duplicates_action self)
     (duplicate_case_ids self) (normalized_moved_paths self)
     (claimed_names self) (quarantine_claimed self) (stats self).

(** [__init__]: the paths of the resume set are normalised, a path whose
    normalisation raises [OSError] or [ValueError] is kept as it is. *)
Definition normalize_moved (paths : gset string) : result (gset string) :=
  foldr (λ p acc,
           s ← acc;
           match normalize_path p with
           | Ok q => Ok ({[q]} ∪ s)
           | Raise e =>
               if bool_decide (exn_type e ∈ [OSError; ValueError])
               then Ok ({[p]} ∪ s)
               else Raise e
           end)
        (Ok ∅) (elements paths).

Definition init (dest_root : string) (dry_run : bool) (max_moves : option Z)
    (exclude_patterns : list string) (on_dest_exists : DestExistsBehavior)
    (already_moved_paths : gset string) (duplicates_action : DuplicatesAction)
    (duplicate_case_ids : gset string) : result t :=
  moved ← normalize_moved already_moved_paths;
  Ok (mk dest_root dry_run max_moves exclude_patterns on_dest_exists
         already_moved_paths duplicates_action duplicate_case_ids
         moved ∅ ∅ (λ _, 0)).

(** [_resolve_quarantine_destination] *)
Definition resolve_quarantine_destination (self : t) (disk : fs)
    (case_id folder_name : string) : result (string * t) :=
  let quarantine_root :=
    path_join (path_join (dest_root self) DUPLICATES_FOLDER) case_id in
  let q :=
    if bool_decide (case_id ∈ dom (quarantine_claimed self))
    then quarantine_claimed self
    else <[case_id := ∅]> (quarantine_claimed self) in
  match q !! case_id with
  | None => Raise (Exn KeyError case_id)
  | Some claimed =>
      let '(r, claimed) := resolve_destination disk quarantine_root
                             folder_name claimed in
      dest_path ← r;
      let dest_name := path_name dest_path in
      let claimed := {[dest_name]} ∪ claimed in
      Ok (dest_path, set_quarantine_claimed self (<[case_id := claimed]> q))
  end.

(** [_move_to_quarantine] *)
Definition move_to_quarantine (self : t) (disk : fs) (m : FolderMatch)
    : result (MoveResult * t * fs) :=
  let src_path := source_path m in
  let folder_name := folder_name m in
  '(dest_path, self) ←
     resolve_quarantine_destination self disk (case_id m) folder_name;
  let dest_name := path_name dest_path in
  '(result, disk) ← move_folder disk src_path dest_path (dry_run self);
  let was_renamed := negb (bool_decide (dest_name = folder_name)) in
  let '(status, message) :=
    if bool_decide (mr_status result = SUCCESS) then
      if was_renamed then
        (QUARANTINED_RENAMED,
         "Quarantined duplicate (renamed from " +:+ folder_name +:+ " to "
           +:+ dest_name +:+ ")")
      else (QUARANTINED, "Quarantined duplicate to " +:+ dest_path)
    else if bool_decide (mr_status result = DRY_RUN) then
      if was_renamed then
        (DRY_RUN_QUARANTINE_RENAMED,
         "Would quarantine to " +:+ dest_path +:+ " (renamed from "
           +:+ folder_name +:+ " to " +:+ dest_name +:+ ")")
      else (DRY_RUN_QUARANTINE, "Would quarantine duplicate to " +:+ dest_path)
    else (mr_status result, mr_message result) in
  let final_result :=
    mkMoveResult (case_id m) (mr_source_path result) (mr_dest_path result)
      status message in
  Ok (final_result, count_status self (mr_status final_result), disk).

(** A short-circuit outcome of [move_folder]: counted and returned. *)
Definition skip (self : t) (disk : fs) (m : FolderMatch)
    (dest : option string) (status : MoveStatus) (message : string)
    : result (MoveResult * t * fs) :=
  let result := mkMoveResult (case_id m) (source_path m) dest status message in
  Ok (result, count_status self (mr_status result), disk).

(** [FolderMover.move_folder] *)
Definition move_folder (self : t) (disk : fs) (m : FolderMatch)
    : result (MoveResult * t * fs) :=
  let src_path := source_path m in
  let folder_name := folder_name m in
  let is_duplicate := bool_decide (case_id m ∈ duplicate_case_ids self) in
  let excluded :=
    match exclude_patterns self with
    | [] => None
    | _ :: _ =>
        match matches_exclusion_pattern folder_name (exclude_patterns self) with
        | Some matched_pattern =>
            if truthy matched_pattern then Some matched_pattern else None
        | None => None
        end
    end in
  match excluded with
  | Some matched_pattern =>
      skip self disk m None SKIPPED_EXCLUDED
        ("Excluded by pattern: " +:+ matched_pattern)
  | None =>
  let normalized_src_r :=
    match normalize_path (source_path m) with
    | Ok p => Ok p
    | Raise e =>
        if bool_decide (exn_type e ∈ [OSError; ValueError])
        then Ok (source_path m) else Raise e
    end in
  normalized_src ← normalized_src_r;
  if bool_decide (normalized_src ∈ normalized_moved_paths self) ||
     bool_decide (source_path m ∈ normalized_moved_paths self) then
    skip self disk m None SKIPPED_RESUME
      "Already processed in previous run (resumed)"
  else if negb (os_path_exists disk src_path) then
    skip self disk m None SKIPPED_MISSING
      "Source folder no longer exists (may have been moved already)"
  else if is_duplicate && bool_decide (duplicates_action self = dup_skip) then
    skip self disk m None SKIPPED_DUPLICATE
      "Duplicate CaseID skipped (--duplicates-action=skip)"
  else if is_duplicate && bool_decide (duplicates_action self = dup_quarantine)
  then move_to_quarantine self disk m
  else
    let original_dest := path_join (dest_root self) folder_name in
    let original_dest_check :=
      if win32 then to_extended_length_path original_dest else original_dest in
    let dest_exists :=
      os_path_exists disk original_dest_check ||
      bool_decide (folder_name ∈ claimed_names self) in
    if dest_exists && bool_decide (on_dest_exists self = on_skip) then
      skip self disk m (Some original_dest) SKIPPED_EXISTS
        "Destination exists (skipped due to --on-dest-exists=skip)"
    else
      let '(r, claimed) :=
        resolve_destination disk (dest_root self) folder_name
          (claimed_names self) in
      dest_path ← r;
      let dest_name := path_name dest_path in
      let self := claim self dest_name in
      '(result, disk) ← move_folder disk src_path dest_path (dry_run self);
      let was_renamed := negb (bool_decide (dest_name = folder_name)) in
      let '(status, message) :=
        if bool_decide (mr_status result = SUCCESS) && was_renamed then
          (SUCCESS_RENAMED,
           "Moved successfully (renamed from " +:+ folder_name +:+ " to "
             +:+ dest_name +:+ ")")
        else if bool_decide (mr_status result = DRY_RUN) && was_renamed then
          (DRY_RUN_RENAMED,
           "Would move to " +:+ dest_path +:+ " (renamed from "
             +:+ folder_name +:+ " to " +:+ dest_name +:+ ")")
        else (mr_status result, mr_message result) in
      let final_result :=
        mkMoveResult (case_id m) (mr_source_path result) (mr_dest_path result)
          status message in
      Ok (final_result, count_status self (mr_status final_result), disk)
  end.

(** The loop of [move_all] from the state it has before a match:
    [results] and [ops_count] so far.  [progress_callback] is left at its
    default [None]. *)
Fixpoint move_all_loop (self : t) (disk : fs) (matches : list FolderMatch)
    (results : list MoveResult) (ops_count : Z)
    : result (list MoveResult * t * fs) :=
  match matches with
  | [] => Ok (results, self, disk)
  | m :: rest =>
      let stop :=
        match max_moves self with
        | Some limit => bool_decide (limit ≤ ops_count)%Z
        | None => false
        end in
      if stop then Ok (results, self, disk)
      else
        '(result, self, disk) ← move_folder self disk m;
        let results := results ++ [result] in
        let ops_count :=
          if bool_decide (mr_status result ∈ OP_STATUSES)
          then (ops_count + 1)%Z else ops_count in
        move_all_loop self disk rest results ops_count
  end.

(** [FolderMover.move_all] *)
Definition move_all (self : t) (disk : fs) (matches : list FolderMatch)
    : result (list MoveResult * t * fs) :=
  move_all_loop self disk matches [] 0.

End methods.
End FolderMover.

(** ** indexer.py *)

Inductive MatcherType := bucket | aho.

(** The part of [pyahocorasick] the matcher uses: whether the module could
    be imported, and the values [automaton.iter(text)] yields for the
    automaton built by [add_word(w, w)] over [words] and [make_automaton]. *)
Class Automaton := {
  HAS_AHOCORASICK : bool;
  automaton_iter : list string → string → result (list string)
}.

(** [for x in xs: s = body(s, x)], stopping at the first exception. *)
Fixpoint for_each {A S : Type} (body : S → A → result S) (xs : list A) (s : S)
    : result S :=
  match xs with
  | [] => Ok s
  | x :: xs' => s' ← body s x; for_each body xs' s'
  end.

(** [results[key].append(folder)] *)
Definition append_to (results : gmap string (list FolderEntry)) (key : string)
    (folder : FolderEntry) : result (gmap string (list FolderEntry)) :=
  match results !! key with
  | Some l => Ok (<[key := l ++ [folder]]> results)
  | None => Raise (Exn KeyError key)
  end.

(** [{cid: [] for cid in case_ids}] *)
Definition empty_results (case_ids : list string)
    : gmap string (list FolderEntry) :=
  foldl (λ m cid, <[cid := []]> m) ∅ case_ids.

(** [max(len(cid) for cid in case_ids) if case_ids else 0] *)
Definition max_length (case_ids : list string) : nat :=
  foldr (λ cid acc, String.length cid `max` acc) 0 case_ids.

(** The cumulative buckets: entry [n] holds the identifiers of the buckets
    [0..n]. *)
Fixpoint cumulative_of {A} (running : list A) (buckets : list (list A))
    : list (list A) :=
  match buckets with
  | [] => []
  | b :: bs => let running := running ++ b in running :: cumulative_of running bs
  end.

Section matcher.
Context `{Env} `{Automaton}.

Definition normalized (case_sensitive : bool) (s : string) : string :=
  if case_sensitive then s else lower s.

Definition prepared_caseids (case_sensitive : bool) (case_ids : list string)
    : list (string * string) :=
  map (λ cid, (cid, normalized case_sensitive cid)) case_ids.

(** [buckets[len(normalized)].append((original, normalized))] over the
    prepared identifiers. *)
Definition fill_buckets (prepared : list (string * string))
    (buckets : list (list (string * string)))
    : result (list (list (string * string))) :=
  for_each
    (λ buckets '(original, normalized),
       match buckets !! String.length normalized with
       | Some b =>
           Ok (<[String.length normalized := b ++ [(original, normalized)]]> buckets)
       | None => Raise (Exn IndexError "list index out of range")
       end)
    prepared buckets.

(** The identifiers tried against a folder name of length [name_len];
    [cumulative[i] if i < len(cumulative) else []] is the lookup with its
    default. *)
Definition applicable_for (cumulative : list (list (string * string)))
    (max_length name_len : nat) : list (string * string) :=
  if decide (name_len = 0) then []
  else if decide (max_length < name_len)
       then default [] (cumulative !! max_length)
       else default [] (cumulative !! name_len).

(** [_match_with_length_buckets] *)
Definition match_with_length_buckets (case_ids : list string)
    (folders : list FolderEntry) (case_sensitive : bool)
    : result (gmap string (list FolderEntry)) :=
  let prepared_caseids := prepared_caseids case_sensitive case_ids in
  let max_length := max_length case_ids in
  buckets ← fill_buckets prepared_caseids (replicate (max_length + 1) []);
  let cumulative := cumulative_of [] buckets in
  for_each
    (λ results folder,
       let folder_name := normalized case_sensitive (name folder) in
       let name_len := String.length folder_name in
       let applicable := applicable_for cumulative max_length name_len in
       for_each
         (λ results '(original, normalized),
            if str_contains normalized folder_name
            then append_to results original folder
            else Ok results)
         applicable results)
    folders (empty_results case_ids).

(** [pattern_to_caseids], a [defaultdict(list)]. *)
Definition pattern_to_caseids (case_sensitive : bool) (case_ids : list string)
    : gmap string (list string) :=
  foldl (λ m case_id,
           let pattern := normalized case_sensitive case_id in
           <[pattern := default [] (m !! pattern) ++ [case_id]]> m)
        ∅ case_ids.

(** [_match_with_ahocorasick] *)
Definition match_with_ahocorasick (case_ids : list string)
    (folders : list FolderEntry) (case_sensitive : bool)
    : result (gmap string (list FolderEntry)) :=
  let words := map (normalized case_sensitive) case_ids in
  let pattern_to_caseids := pattern_to_caseids case_sensitive case_ids in
  for_each
    (λ results folder,
       let folder_name := normalized case_sensitive (name folder) in
       values ← automaton_iter words folder_name;
       let matched_patterns := set_order values in
       for_each
         (λ results pattern,
            for_each (λ results case_id, append_to results case_id folder)
              (default [] (pattern_to_caseids !! pattern)) results)
         matched_patterns results)
    folders (empty_results case_ids).

(** [match_caseids] *)
Definition match_caseids (case_ids : list string) (folders : list FolderEntry)
    (case_sensitive : bool) (matcher : MatcherType)
    : result (gmap string (list FolderEntry)) :=
  if bool_decide (case_ids = []) || bool_decide (folders = []) then
    Ok (empty_results case_ids)
  else
    match matcher with
    | aho =>
        if HAS_AHOCORASICK
        then match_with_ahocorasick case_ids folders case_sensitive
        else match_with_length_buckets case_ids folders case_sensitive
    | bucket => match_with_length_buckets case_ids folders case_sensitive
    end.

End matcher.

(** ** A concrete environment

    A small POSIX-like instance of [Env] and [Automaton] the examples below
    run on: ASCII strings, a disk that is the list of the directories on it,
    paths joined with a slash. *)

Module Sim.

Definition lower_char (c : Ascii.ascii) : Ascii.ascii :=
  let n := Ascii.nat_of_ascii c in
  if (65 <=? n)%nat && (n <=? 90)%nat then Ascii.ascii_of_nat (n + 32) else c.

Fixpoint ascii_lower (s : string) : string :=
  match s with
  | EmptyString => EmptyString
  | String c s' => String (lower_char c) (ascii_lower s')
  end.

(** Globbing with [*] and [?]; bracket classes are read literally. *)
Fixpoint glob (p : string) : string → bool :=
  match p with
  | EmptyString => λ s, bool_decide (s = EmptyString)
  | String c p' =>
      if Ascii.eqb c "*"%char then
        fix star (s : string) : bool :=
          glob p' s ||
          match s with EmptyString => false | String _ s' => star s' end
      else if Ascii.eqb c "?"%char then
        λ s, match s with EmptyString => false | String _ s' => glob p' s' end
      else
        λ s, match s with
             | EmptyString => false
             | String d s' => Ascii.eqb c d && glob p' s'
             end
  end.

Definition join (d n : string) : string := d +:+ "/" +:+ n.

(** The text after the last slash, and the text before it. *)
Fixpoint basename (p : string) : string :=
  match p with
  | EmptyString => EmptyString
  | String c p' =>
      if str_contains "/" p' then basename p'
      else if Ascii.eqb c "/"%char then p' else p
  end.

Fixpoint dirname (p : string) : string :=
  match p with
  | EmptyString => EmptyString
  | String c p' =>
      if str_contains "/" p' then String c (dirname p')
      else EmptyString
  end.

Definition disk := list string.

Definition exists_ (d : disk) (p : string) : bool := bool_decide (p ∈ d).

Definition makedirs (d : disk) (p : string) : result disk :=
  Ok (if bool_decide (p ∈ d) then d else d ++ [p]).

(** A move takes the source directory, and what lies under it, off the disk
    and puts the destination on it. *)
Definition move (d : disk) (src dest : string) : bool * string * disk :=
  if bool_decide (src ∈ d) then
    (true, "Moved successfully",
     filter (λ p, p ≠ src ∧ startswith (src +:+ "/") p = false) d ++ [dest])
  else (false, "Source not found", d).

Global Instance env : Env := {|
  fs := disk;
  win32 := false;
  lower := ascii_lower;
  set_order := remove_dups;
  fnmatch := λ name pat, glob pat name;
  normalize_path := λ p, Ok p;
  to_extended_length_path := λ p, p;
  path_join := join;
  path_name := basename;
  path_parent := dirname;
  os_path_exists := exists_;
  os_path_isdir := exists_;
  os_makedirs := makedirs;
  safe_move := move
|}.

(** [pyahocorasick]: [add_word] does not store an empty word; [iter] on an
    automaton without words raises [AttributeError], otherwise it yields
    the stored words that occur in the text. *)
Definition pyaho_iter (words : list string) (text : string)
    : result (list string) :=
  let stored := filter (λ w, w ≠ "") words in
  match stored with
  | [] => Raise (Exn AttributeError "not an automaton yet")
  | _ :: _ => Ok (filter (λ w, str_contains w text = true) stored)
  end.

Global Instance pyaho : Automaton := {|
  HAS_AHOCORASICK := true;
  automaton_iter := pyaho_iter
|}.

End Sim.

(** ** Vocabulary of the statements *)

Section vocabulary.
Context `{Env}.

(** A name is free in a directory when its path is not on the disk and the
    name is not claimed. *)
Definition is_free (disk : fs) (dest_root_str : string)
    (claimed : gset string) (nm : string) : bool :=
  negb (path_exists disk (path_join dest_root_str nm)) &&
  negb (bool_decide (nm ∈ claimed)).

(** The candidates of [resolve_destination] in the order it probes them:
    the name itself, then the name with the suffixes 1, 2, ... *)
Definition candidate (folder_name : string) (k : nat) : string :=
  match k with
  | 0 => folder_name
  | S _ => suffixed folder_name k
  end.

End vocabulary.

(** The dry-run status that stands for a live status. *)
Definition dry_variant (s : MoveStatus) : MoveStatus :=
  match s with
  | SUCCESS => DRY_RUN
  | SUCCESS_RENAMED => DRY_RUN_RENAMED
  | QUARANTINED => DRY_RUN_QUARANTINE
  | QUARANTINED_RENAMED => DRY_RUN_QUARANTINE_RENAMED
  | s => s
  end.

(** The number of outcomes that count against the operation budget. *)
Definition count_ops (results : list MoveResult) : nat :=
  length (filter (λ r, mr_status r ∈ OP_STATUSES) results).

(** The label [write_move_result] gives a status that is not overridden. *)
Definition plain_label (status : MoveStatus) : ReportStatus :=
  from_move_status status false.

(** ** Inputs of the examples *)

Module Examples.
Import Sim.

Definition engine (dry : bool) (limit : option Z) (patterns : list string)
    (moved : gset string) (action : DuplicatesAction) (dups : gset string)
    : FolderMover.t :=
  FolderMover.mk "/dst" dry limit patterns on_rename moved action dups
    moved ∅ ∅ (λ _, 0).

Definition statuses (run : result (list MoveResult * FolderMover.t * disk))
    : option (list (MoveStatus * option string)) :=
  match run with
  | Ok (rs, _, _) => Some (map (λ r, (mr_status r, mr_dest_path r)) rs)
  | Raise _ => None
  end.

Definition status1 (run : result (MoveResult * FolderMover.t * disk))
    : option MoveStatus :=
  match run with
  | Ok (r, _, _) => Some (mr_status r)
  | Raise _ => None
  end.

(** One folder whose name holds two identifiers gives two matches. *)
Definition twice : list FolderMatch :=
  [mkFolderMatch "1" "/src/C_1_2" "C_1_2";
   mkFolderMatch "2" "/src/C_1_2" "C_1_2"].

Definition disk0 : disk := ["/src/C_1_2"; "/dst"].

(** A destination in which the name X and all of X_1 ... X_10000 exist. *)
Definition crowded : disk :=
  map (λ k, join "/dst" (candidate "X" k)) (seq 0 (S ATTEMPTS)).

Definition budget_run :=
  FolderMover.move_all (engine false (Some 1%Z) [] ∅ dup_move_all ∅) disk0 twice.

Definition dry_step :=
  FolderMover.move_folder
    (FolderMover.with_dry_run (engine false None [] ∅ dup_move_all ∅) true)
    disk0 (mkFolderMatch "1" "/src/C_1_2" "C_1_2").

Definition live_step :=
  FolderMover.move_folder
    (FolderMover.with_dry_run (engine false None [] ∅ dup_move_all ∅) false)
    disk0 (mkFolderMatch "1" "/src/C_1_2" "C_1_2").

Definition quarantine_step :=
  FolderMover.move_folder (engine false None [] ∅ dup_quarantine {["1"]})
    disk0 (mkFolderMatch "1" "/src/C_1_2" "C_1_2").

End Examples.

(** ** Vocabulary of the matcher statements *)

(** How often an identifier occurs in the list of identifiers. *)
Definition mult (k : string) (l : list string) : nat :=
  length (filter (λ c, c = k) l).

Section matcher_vocabulary.
Context `{Env} `{Automaton}.

(** A folder is a hit of an identifier when its normalised name is not
    empty and contains the normalised identifier. *)
Definition hits (case_sensitive : bool) (cid : string) (folder : FolderEntry)
    : bool :=
  negb (bool_decide (normalized case_sensitive (name folder) = "")) &&
  str_contains (normalized case_sensitive cid)
    (normalized case_sensitive (name folder)).

(** The folders listed under an identifier: the hits in the order of the
    folder list, each as often as the identifier was passed. *)
Definition matched (case_sensitive : bool) (case_ids : list string)
    (cid : string) (folders : list FolderEntry) : list FolderEntry :=
  flat_map (λ f, if hits case_sensitive cid f
                 then replicate (mult cid case_ids) f else []) folders.

(** No normalised identifier is longer than the longest identifier, so
    that every identifier has its bucket. *)
Definition bucket_safe (case_sensitive : bool) (case_ids : list string) : Prop :=
  Forall (λ cid, (String.length (normalized case_sensitive cid)
                  ≤ max_length case_ids)%nat) case_ids.

(** Iterating a set visits each of its elements once. *)
Definition set_order_ok : Prop :=
  ∀ l, NoDup (set_order l) ∧ ∀ x, x ∈ set_order l ↔ x ∈ l.

(** The automaton over non-empty words yields the words that occur in the
    text. *)
Definition automaton_ok : Prop :=
  ∀ words text, words ≠ [] → "" ∉ words →
    ∃ vals, automaton_iter words text = Ok vals ∧
            ∀ p, p ∈ vals ↔ p ∈ words ∧ str_contains p text = true.

End matcher_vocabulary.

(** ** Inputs of the matcher examples *)

Module MatcherExamples.

(** The folders listed under an identifier, when the matcher returned. *)
Definition listing (run : result (gmap string (list FolderEntry)))
    (cid : string) : option (list FolderEntry) :=
  match run with
  | Ok m => m !! cid
  | Raise _ => None
  end.

Definition fA := mkFolderEntry "Case_00123_A" "/src/Case_00123_A".
Definition fB := mkFolderEntry "Case_00123_B" "/src/Case_00123_B".
Definition fC := mkFolderEntry "Case_00456" "/src/Case_00456".
Definition fx := mkFolderEntry "x" "/src/x".
Definition unnamed := mkFolderEntry "" "/src/".

Definition case_ids : list string := ["00123"; "00456"; "99999"].

End MatcherExamples.

(** ** Vocabulary of the further engine statements *)

Section engine_vocabulary.
Context `{Env}.

(** A pattern hits a folder name as a glob or as a substring, both
    case-folded. *)
Definition pattern_hits (folder_name pattern : string) : bool :=
  fnmatch (lower folder_name) (lower pattern) ||
  str_contains (lower pattern) (lower folder_name).

(** The exclusion the engine acts on: the first hit, when it is truthy. *)
Definition exclusion_hit (patterns : list string) (folder_name : string)
    : option string :=
  match matches_exclusion_pattern folder_name patterns with
  | Some p => if truthy p then Some p else None
  | None => None
  end.

(** The path the resume check looks up besides the source path itself. *)
Definition resume_key (m : FolderMatch) : result string :=
  match normalize_path (source_path m) with
  | Ok p => Ok p
  | Raise e =>
      if bool_decide (exn_type e ∈ [OSError; ValueError])
      then Ok (source_path m) else Raise e
  end.

(** The path handed to the disk checks. *)
Definition check_path (p : string) : string :=
  if win32 then to_extended_length_path p else p.

(** A run of consecutive engine steps: the matches handled, the outcomes in
    the same order, and the engine and disk afterwards. *)
Inductive steps : FolderMover.t → fs → list FolderMatch → list MoveResult →
    FolderMover.t → fs → Prop :=
  | steps_nil self disk : steps self disk [] [] self disk
  | steps_cons self disk m r self1 disk1 ms rs self' disk' :
      FolderMover.move_folder self disk m = Ok (r, self1, disk1) →
      steps self1 disk1 ms rs self' disk' →
      steps self disk (m :: ms) (r :: rs) self' disk'.

End engine_vocabulary.

(** The status of the main branch for a status of the module-level
    [move_folder]. *)
Definition main_status (prim : MoveStatus) (was_renamed : bool) : MoveStatus :=
  if bool_decide (prim = SUCCESS) && was_renamed then SUCCESS_RENAMED
  else if bool_decide (prim = DRY_RUN) && was_renamed then DRY_RUN_RENAMED
  else prim.

(** The status of the quarantine branch. *)
Definition quarantine_status (prim : MoveStatus) (was_renamed : bool)
    : MoveStatus :=
  if bool_decide (prim = SUCCESS) then
    if was_renamed then QUARANTINED_RENAMED else QUARANTINED
  else if bool_decide (prim = DRY_RUN) then
    if was_renamed then DRY_RUN_QUARANTINE_RENAMED else DRY_RUN_QUARANTINE
  else prim.

Definition live_statuses : list MoveStatus :=
  [SUCCESS; SUCCESS_RENAMED; QUARANTINED; QUARANTINED_RENAMED].

Definition dry_statuses : list MoveStatus :=
  [DRY_RUN; DRY_RUN_RENAMED; DRY_RUN_QUARANTINE; DRY_RUN_QUARANTINE_RENAMED].

(** How often a status occurs among the outcomes. *)
Definition count_of (s : MoveStatus) (results : list MoveResult) : nat :=
  length (filter (λ r, mr_status r = s) results).

(** The statuses of a move, performed or simulated, into the main
    destination. *)
Definition MAIN_MOVES : list MoveStatus :=
  [SUCCESS; SUCCESS_RENAMED; DRY_RUN; DRY_RUN_RENAMED].

(** The destinations of the outcomes that are such moves. *)
Definition main_destinations (results : list MoveResult) : list string :=
  omap (λ r, if bool_decide (mr_status r ∈ MAIN_MOVES)
             then mr_dest_path r else None) results.

(** ** Inputs of the further engine examples *)

Module EngineExamples.
Import Sim Examples.

(** A live move of one folder by the module-level [move_folder]. *)
Definition plain_move :=
  move_folder (H:=env) ["/src/a"; "/dst"] "/src/a" "/dst/a" false.

(** The folder matched by two identifiers, in a dry run. *)
Definition dry_batch :=
  FolderMover.move_all (engine true None [] ∅ dup_move_all ∅) disk0 twice.

(** The same batch under the quarantine policy, both identifiers being
    duplicates. *)
Definition quarantine_batch :=
  FolderMover.move_all (engine true None [] ∅ dup_quarantine {["1"; "2"]})
    disk0 twice.

(** An engine built by [__init__] with the folder in its resume set. *)
Definition resumed_engine :=
  FolderMover.init (H:=env) "/dst" false None [] on_rename {["/src/C_1_2"]}
    dup_move_all ∅.

(** An engine with the skip policy for existing destinations. *)
Definition skipping : FolderMover.t :=
  FolderMover.mk "/dst" false None [] on_skip ∅ dup_move_all ∅ ∅ ∅ ∅ (λ _, 0).

Definition first_match : FolderMatch := mkFolderMatch "1" "/src/C_1_2" "C_1_2".

(** A destination in which the folder's name is taken. *)
Definition disk1 : disk := ["/src/C_1_2"; "/dst"; "/dst/C_1_2"].

Definition excluded_step :=
  FolderMover.move_folder (engine false None ["c_1*"] ∅ dup_move_all ∅)
    disk0 first_match.

Definition renamed_step :=
  FolderMover.move_folder (engine false None [] ∅ dup_move_all ∅)
    disk1 first_match.

Definition skipped_step := FolderMover.move_folder skipping disk1 first_match.

End EngineExamples.

(** ** Vocabulary of the dry-run statement *)

Section mirror_vocabulary.
Context `{Env}.

(** The state of a dry engine and of a live engine that have decided alike
    so far: they differ at most in the mode and in the counters. *)
Definition agree (sd sl : FolderMover.t) : Prop :=
  FolderMover.dest_root sd = FolderMover.dest_root sl ∧
  FolderMover.max_moves sd = FolderMover.max_moves sl ∧
  FolderMover.exclude_patterns sd = FolderMover.exclude_patterns sl ∧
  FolderMover.on_dest_exists sd = FolderMover.on_dest_exists sl ∧
  FolderMover.duplicates_action sd = FolderMover.duplicates_action sl ∧
  FolderMover.duplicate_case_ids sd = FolderMover.duplicate_case_ids sl ∧
  FolderMover.normalized_moved_paths sd = FolderMover.normalized_moved_paths sl ∧
  FolderMover.claimed_names sd = FolderMover.claimed_names sl ∧
  FolderMover.quarantine_claimed sd = FolderMover.quarantine_claimed sl.

(** Two disks answer alike whether a path exists and is a directory. *)
Definition same_answers (d0 dl : fs) (q : string) : Prop :=
  os_path_exists dl q = os_path_exists d0 q ∧
  os_path_isdir dl q = os_path_isdir d0 q.

(** Two disks answer alike for the candidates of a name in a directory
    that are not claimed: where [resolve_destination] probes them, and
    where the module-level [move_folder] probes the resolved path. *)
Definition candidates_agree (d0 dl : fs) (dest_root nm : string)
    (claimed : gset string) : Prop :=
  ∀ root k, normalize_path dest_root = Ok root → (k ≤ ATTEMPTS)%nat →
    candidate nm k ∉ claimed →
    path_exists dl (path_join root (candidate nm k))
    = path_exists d0 (path_join root (candidate nm k)) ∧
    ∀ d, normalize_path (path_join root (candidate nm k)) = Ok d →
         os_path_exists dl (check_path d) = os_path_exists d0 (check_path d).

(** Two disks answer alike to everything the engine in state [s] probes
    for the match [m]: its source, and the unclaimed candidates of its name
    in the main destination and in the quarantine folder of its
    identifier. *)
Definition probes_agree (s : FolderMover.t) (d0 dl : fs) (m : FolderMatch)
    : Prop :=
  os_path_exists dl (source_path m) = os_path_exists d0 (source_path m) ∧
  (∀ src_str, normalize_path (source_path m) = Ok src_str →
              same_answers d0 dl (check_path src_str)) ∧
  (folder_name m ∉ FolderMover.claimed_names s →
   path_exists dl (path_join (FolderMover.dest_root s) (folder_name m))
   = path_exists d0 (path_join (FolderMover.dest_root s) (folder_name m))) ∧
  candidates_agree d0 dl (FolderMover.dest_root s) (folder_name m)
    (FolderMover.claimed_names s) ∧
  candidates_agree d0 dl
    (path_join (path_join (FolderMover.dest_root s) DUPLICATES_FOLDER)
       (case_id m))
    (folder_name m)
    (default ∅ (FolderMover.quarantine_claimed s !! case_id m)).

(** The live run from engine [s] and disk [dl] over [ms] never disturbs
    what a later match probes: at each match the live disk answers as the
    untouched disk [d0] does. *)
Fixpoint undisturbed (s : FolderMover.t) (d0 dl : fs) (ms : list FolderMatch)
    : Prop :=
  match ms with
  | [] => True
  | m :: rest =>
      probes_agree s d0 dl m ∧
      ∀ r s' dl', FolderMover.move_folder s dl m = Ok (r, s', dl') →
                  undisturbed s' d0 dl' rest
  end.

End mirror_vocabulary.

(** A dry-run outcome mirrors a live outcome: same identifier, same
    destination, and the dry-run variant of the live status unless the
    live run ended in [ERROR]. *)
Definition mirrors (a b : MoveResult) : Prop :=
  mr_case_id a = mr_case_id b ∧
  mr_dest_path a = mr_dest_path b ∧
  (mr_status b ≠ ERROR → mr_status a = dry_variant (mr_status b)).

(** ** Inputs of the dry-run examples *)

Module MirrorExamples.
Import Sim Examples.

(** Two folders of the same name in different places. *)
Definition namesakes : list FolderMatch :=
  [mkFolderMatch "1" "/src/a/Case" "Case";
   mkFolderMatch "2" "/src/b/Case" "Case"].

Definition two_sources : disk := ["/src/a/Case"; "/src/b/Case"; "/dst"].

Definition plain : FolderMover.t := engine false None [] ∅ dup_move_all ∅.

Definition dry_namesakes :=
  FolderMover.move_all (FolderMover.with_dry_run plain true)
    two_sources namesakes.

Definition live_namesakes :=
  FolderMover.move_all (FolderMover.with_dry_run plain false)
    two_sources namesakes.

End MirrorExamples.

(** ** Vocabulary of the claimed-names statement *)

Section claims_vocabulary.
Context `{Env}.

(** The match gets past the skip checks of [FolderMover.move_folder]:
    it is not excluded, not in the resume set, its source exists, and it is
    not a duplicate under the skip policy. *)
Definition passes_skips (self : FolderMover.t) (disk : fs) (m : FolderMatch)
    : Prop :=
  exclusion_hit (FolderMover.exclude_patterns self) (folder_name m) = None ∧
  (∃ key, resume_key m = Ok key ∧
          key ∉ FolderMover.normalized_moved_paths self ∧
          source_path m ∉ FolderMover.normalized_moved_paths self) ∧
  os_path_exists disk (source_path m) = true ∧
  ¬ (case_id m ∈ FolderMover.duplicate_case_ids self ∧
     FolderMover.duplicates_action self = dup_skip).

(** The match is a duplicate under the quarantine policy. *)
Definition quarantines (self : FolderMover.t) (m : FolderMatch) : Prop :=
  case_id m ∈ FolderMover.duplicate_case_ids self ∧
  FolderMover.duplicates_action self = dup_quarantine.

(** The folder's name is taken in the main destination and the policy for
    existing destinations is to skip. *)
Definition skips_taken (self : FolderMover.t) (disk : fs) (m : FolderMatch)
    : Prop :=
  (path_exists disk (path_join (FolderMover.dest_root self) (folder_name m))
   = true ∨
   folder_name m ∈ FolderMover.claimed_names self) ∧
  FolderMover.on_dest_exists self = on_skip.

End claims_vocabulary.

(** * Properties *)

Local Open Scope nat_scope.

(** The attempt ceiling is only compared with, never counted down, in the
    proofs below. *)
Local Opaque ATTEMPTS.

(** ** The destination resolver *)

Section resolver_facts.
Context `{Env}.
Implicit Types (disk : fs) (claimed : gset string) (k counter fuel : nat).

Lemma resolve_loop_frame fuel limit disk root nm claimed counter :
  (resolve_loop fuel limit disk root nm claimed counter).2 = claimed.
Proof.
  revert counter. induction fuel as [|fuel IH]; intros counter; simpl; [done|].
  repeat case_match; simpl; auto.
Qed.

(** What one run of the loop returns, in terms of the free candidates. *)
Lemma resolve_loop_ok fuel limit disk root nm claimed counter p :
  counter + fuel = S limit →
  (resolve_loop fuel limit disk root nm claimed counter).1 = Ok p →
  ∃ k, counter ≤ k ≤ limit ∧ p = path_join root (suffixed nm k) ∧
       is_free disk root claimed (suffixed nm k) = true ∧
       ∀ j, counter ≤ j < k → is_free disk root claimed (suffixed nm j) = false.
Proof.
  revert counter. induction fuel as [|fuel IH]; intros counter Hf; simpl; [done|].
  fold (is_free disk root claimed (suffixed nm counter)).
  destruct (is_free disk root claimed (suffixed nm counter)) eqn:Hfree; simpl.
  - intros [= <-]. exists counter. repeat split; try lia; auto.
  - case_bool_decide as Hlim; simpl; [done|].
    intros Hr. apply IH in Hr as (k & Hk & -> & Hfk & Hlow); [|lia].
    exists k. repeat split; try lia; auto.
    intros j Hj. destruct (decide (j = counter)) as [->|]; [done|].
    apply Hlow. lia.
Qed.

Lemma resolve_loop_least fuel limit disk root nm claimed counter k :
  counter + fuel = S limit →
  counter ≤ k ≤ limit →
  is_free disk root claimed (suffixed nm k) = true →
  (∀ j, counter ≤ j < k → is_free disk root claimed (suffixed nm j) = false) →
  (resolve_loop fuel limit disk root nm claimed counter).1
  = Ok (path_join root (suffixed nm k)).
Proof.
  revert counter. induction fuel as [|fuel IH]; intros counter Hf Hk Hfree Hlow;
    [lia|]; simpl.
  fold (is_free disk root claimed (suffixed nm counter)).
  destruct (decide (k = counter)) as [->|Hne].
  - by rewrite Hfree.
  - rewrite Hlow by lia. case_bool_decide; [lia|].
    apply IH; [lia|lia|done|]. intros j Hj. apply Hlow. lia.
Qed.

Lemma resolve_loop_raise fuel limit disk root nm claimed counter :
  counter + fuel = S limit →
  (∀ j, counter ≤ j ≤ limit → is_free disk root claimed (suffixed nm j) = false) →
  (resolve_loop fuel limit disk root nm claimed counter).1
  = Raise (exhausted nm).
Proof.
  revert counter. induction fuel as [|fuel IH]; intros counter Hf Hall;
    simpl; [done|].
  fold (is_free disk root claimed (suffixed nm counter)).
  destruct (decide (counter ≤ limit)) as [Hle|Hgt].
  - rewrite Hall by lia. case_bool_decide; [done|].
    apply IH; [lia|]. intros j Hj. apply Hall. lia.
  - lia.
Qed.

Lemma resolve_loop_raise_inv fuel limit disk root nm claimed counter e :
  counter + fuel = S limit →
  (resolve_loop fuel limit disk root nm claimed counter).1 = Raise e →
  e = exhausted nm ∧
  ∀ j, counter ≤ j ≤ limit → is_free disk root claimed (suffixed nm j) = false.
Proof.
  revert counter. induction fuel as [|fuel IH]; intros counter Hf; simpl.
  - intros [= <-]. split; [done|]. intros; lia.
  - fold (is_free disk root claimed (suffixed nm counter)).
    destruct (is_free disk root claimed (suffixed nm counter)) eqn:Hfree;
      simpl; [done|].
    case_bool_decide as Hlim; simpl.
    + intros [= <-]. split; [done|]. intros j Hj.
      by replace j with counter by lia.
    + intros Hr. apply IH in Hr as [-> Hall]; [|lia]. split; [done|].
      intros j Hj. destruct (decide (j = counter)) as [->|]; [done|].
      apply Hall. lia.
Qed.

(** The result of [resolve_destination] as the least free candidate. *)
Lemma resolve_destination_ok disk dest_root root nm claimed p :
  normalize_path dest_root = Ok root →
  (resolve_destination disk dest_root nm claimed).1 = Ok p →
  ∃ k, k ≤ ATTEMPTS ∧ p = path_join root (candidate nm k) ∧
       is_free disk root claimed (candidate nm k) = true ∧
       ∀ j, j < k → is_free disk root claimed (candidate nm j) = false.
Proof.
  intros Hn. unfold resolve_destination. rewrite Hn.
  fold (is_free disk root claimed nm).
  destruct (is_free disk root claimed nm) eqn:Hfree; simpl.
  - intros [= <-]. exists 0. repeat split; auto; lia.
  - intros Hr. apply resolve_loop_ok in Hr as (k & Hk & -> & Hfk & Hlow); [|lia].
    exists k. destruct k as [|k]; [lia|]. repeat split; auto; [lia|].
    intros [|j] Hj; [done|]. apply Hlow. lia.
Qed.

Lemma resolve_destination_least disk dest_root root nm claimed k :
  normalize_path dest_root = Ok root →
  k ≤ ATTEMPTS →
  is_free disk root claimed (candidate nm k) = true →
  (∀ j, j < k → is_free disk root claimed (candidate nm j) = false) →
  (resolve_destination disk dest_root nm claimed).1
  = Ok (path_join root (candidate nm k)).
Proof.
  intros Hn Hk Hfree Hlow. unfold resolve_destination. rewrite Hn.
  fold (is_free disk root claimed nm).
  destruct k as [|k].
  - simpl in Hfree. by rewrite Hfree.
  - pose proof (Hlow 0 ltac:(lia)) as H0. simpl in H0. rewrite H0. simpl negb.
    apply resolve_loop_least; [lia|lia|done|].
    intros [|j] Hj; [lia|]. apply (Hlow (S j)). lia.
Qed.

End resolver_facts.

Section resolver_claims.
Context `{Env}.
Implicit Types (disk : fs) (claimed : gset string) (k : nat).

Lemma is_free_true disk root claimed nm :
  is_free disk root claimed nm = true ↔
  path_exists disk (path_join root nm) = false ∧ nm ∉ claimed.
Proof.
  unfold is_free. rewrite andb_true_iff, !negb_true_iff, bool_decide_eq_false.
  done.
Qed.

Lemma is_free_false_mono disk disk2 root claimed claimed2 nm :
  (∀ q, path_exists disk q = true → path_exists disk2 q = true) →
  claimed ⊆ claimed2 →
  is_free disk root claimed nm = false →
  is_free disk2 root claimed2 nm = false.
Proof.
  intros Hd Hc. unfold is_free.
  rewrite !andb_false_iff, !negb_false_iff, !bool_decide_eq_true.
  intros [Hex|Hin]; [left; by apply Hd|right; by apply Hc].
Qed.

Lemma resolve_destination_raise disk dest_root root nm claimed :
  normalize_path dest_root = Ok root →
  (∀ k, k ≤ ATTEMPTS → is_free disk root claimed (candidate nm k) = false) →
  (resolve_destination disk dest_root nm claimed).1 = Raise (exhausted nm).
Proof.
  intros Hn Hall. unfold resolve_destination. rewrite Hn.
  fold (is_free disk root claimed nm).
  pose proof (Hall 0 ltac:(lia)) as H0. simpl in H0. rewrite H0. simpl negb.
  apply resolve_loop_raise; [lia|].
  intros [|j] Hj; [lia|]. apply (Hall (S j)). lia.
Qed.

Lemma resolve_destination_raise_inv disk dest_root root nm claimed e :
  normalize_path dest_root = Ok root →
  (resolve_destination disk dest_root nm claimed).1 = Raise e →
  e = exhausted nm ∧
  ∀ k, k ≤ ATTEMPTS → is_free disk root claimed (candidate nm k) = false.
Proof.
  intros Hn. unfold resolve_destination. rewrite Hn.
  fold (is_free disk root claimed nm).
  destruct (is_free disk root claimed nm) eqn:Hfree; simpl; [done|].
  intros Hr. apply resolve_loop_raise_inv in Hr as [-> Hall]; [|lia].
  split; [done|]. intros [|k] Hk; [done|]. apply Hall. lia.
Qed.

(** C3: [resolve_destination] returns the directory joined with the desired
    name when that is free on the disk and among the claimed names;
    otherwise the first of name_1, name_2, ... that is free on both.  The
    path it returns is not on the disk and its basename is not claimed, and
    a later call whose claimed set has grown by the returned basename
    returns a strictly later candidate. *)
Theorem resolve_destination_first_free disk dest_root root nm claimed :
  normalize_path dest_root = Ok root →
  (∀ k, k ≤ ATTEMPTS →
        path_name (path_join root (candidate nm k)) = candidate nm k) →
  (is_free disk root claimed nm = true →
   (resolve_destination disk dest_root nm claimed).1 = Ok (path_join root nm)) ∧
  (∀ k, 1 ≤ k ≤ ATTEMPTS →
        is_free disk root claimed nm = false →
        (∀ j, 1 ≤ j < k → is_free disk root claimed (suffixed nm j) = false) →
        is_free disk root claimed (suffixed nm k) = true →
        (resolve_destination disk dest_root nm claimed).1
        = Ok (path_join root (suffixed nm k))) ∧
  (∀ p, (resolve_destination disk dest_root nm claimed).1 = Ok p →
        path_exists disk p = false ∧ path_name p ∉ claimed) ∧
  (∀ disk2 claimed2 p1 p2,
     (resolve_destination disk dest_root nm claimed).1 = Ok p1 →
     (resolve_destination disk2 dest_root nm claimed2).1 = Ok p2 →
     (∀ q, path_exists disk q = true → path_exists disk2 q = true) →
     claimed ⊆ claimed2 →
     path_name p1 ∈ claimed2 →
     ∃ n1 n2, p1 = path_join root (candidate nm n1) ∧
              p2 = path_join root (candidate nm n2) ∧ n1 < n2).
Proof.
  intros Hn Hbase. repeat split.
  - intros Hfree. by apply (resolve_destination_least _ _ _ _ _ 0); [|lia| |lia].
  - intros k Hk H0 Hlow Hfree.
    destruct k as [|k]; [lia|].
    apply (resolve_destination_least _ _ _ _ _ (S k)); [done|lia|done|].
    intros [|j] Hj; [done|]. apply Hlow. lia.
  - eapply resolve_destination_ok in H0 as (k & Hk & -> & Hfree & _); [|done].
    by apply is_free_true in Hfree as [? ?].
  - eapply resolve_destination_ok in H0 as (k & Hk & -> & Hfree & _); [|done].
    rewrite Hbase by done. by apply is_free_true in Hfree as [? ?].
  - intros disk2 claimed2 p1 p2 H1 H2 Hd Hc Hin.
    eapply resolve_destination_ok in H1 as (n1 & Hn1 & Hp1 & Hf1 & Hl1); [|done].
    eapply resolve_destination_ok in H2 as (n2 & Hn2 & Hp2 & Hf2 & Hl2); [|done].
    subst p1 p2. exists n1, n2. repeat split.
    rewrite Hbase in Hin by done.
    destruct (decide (n1 < n2)) as [|Hge]; [done|exfalso].
    destruct (decide (n2 = n1)) as [->|Hne].
    + apply is_free_true in Hf2 as [_ Hf2]. done.
    + assert (is_free disk2 root claimed2 (candidate nm n2) = false) as Hnf.
      { eapply is_free_false_mono; [done|done|]. apply Hl1. lia. }
      congruence.
Qed.

(** C4 (amended): the resolver gives up after the desired name and the
    suffixes 1..[ATTEMPTS] (10000), exactly when none of these candidates is free, by
    raising a [RuntimeError]; it raises nothing else once the destination
    root is normalised. *)
Theorem resolve_destination_exhausted disk dest_root root nm claimed :
  normalize_path dest_root = Ok root →
  ((∀ k, k ≤ ATTEMPTS → is_free disk root claimed (candidate nm k) = false)
   ↔ (resolve_destination disk dest_root nm claimed).1 = Raise (exhausted nm)) ∧
  (∀ e, (resolve_destination disk dest_root nm claimed).1 = Raise e →
        exn_type e = RuntimeError ∧
        ∀ k, k ≤ ATTEMPTS → is_free disk root claimed (candidate nm k) = false).
Proof.
  intros Hn. split; [split|].
  - by apply resolve_destination_raise.
  - intros Hr. by eapply resolve_destination_raise_inv in Hr as [_ ?].
  - intros e Hr. eapply resolve_destination_raise_inv in Hr as [-> ?]; done.
Qed.

Lemma resolve_destination_snd disk dest_root nm claimed :
  (resolve_destination disk dest_root nm claimed).2 = claimed.
Proof.
  unfold resolve_destination. repeat case_match; simpl; auto.
  apply resolve_loop_frame.
Qed.

End resolver_claims.

(** ** The move engine *)

Section engine_facts.
Context `{Env}.
Implicit Types (self : FolderMover.t) (disk : fs) (m : FolderMatch).

(** Unfolds one call of the engine down to the resolver and the disk. *)
Ltac unfold_engine :=
  unfold FolderMover.move_folder, FolderMover.move_to_quarantine,
    FolderMover.resolve_quarantine_destination, FolderMover.skip,
    move_folder, mbind, result_bind in *.

Ltac crunch := repeat (case_match; simplify_eq/=; try done).

(** The module-level [move_folder] in dry-run mode leaves the disk alone. *)
Lemma move_folder_dry_disk disk src dest r disk' :
  move_folder disk src dest true = Ok (r, disk') → disk' = disk.
Proof. unfold move_folder, mbind, result_bind. intros Hr. crunch. Qed.

(** Dry and live run of the module-level [move_folder] on one disk. *)
Lemma move_folder_dry_live disk src dest rd dd rl dl :
  move_folder disk src dest true = Ok (rd, dd) →
  move_folder disk src dest false = Ok (rl, dl) →
  mr_dest_path rd = mr_dest_path rl ∧
  mr_source_path rd = mr_source_path rl ∧
  (mr_status rl = ERROR ∨
   mr_status rd = mr_status rl ∧ mr_status rl ≠ SUCCESS ∨
   mr_status rd = DRY_RUN ∧ mr_status rl = SUCCESS).
Proof.
  unfold move_folder, mbind, result_bind. intros Hd Hl.
  repeat (case_match; simplify_eq/=; try done); auto 10.
Qed.

(** Every outcome of the engine carries the identifier of its match, and the
    engine's budget setting is not touched. *)
Lemma engine_move_folder_inv self disk m r self' disk' :
  FolderMover.move_folder self disk m = Ok (r, self', disk') →
  mr_case_id r = case_id m ∧
  FolderMover.max_moves self' = FolderMover.max_moves self.
Proof.
  unfold_engine. intros Hr.
  repeat (case_match; simplify_eq/=; try done).
Qed.

Lemma count_ops_cons (r : MoveResult) (rs : list MoveResult) :
  count_ops (r :: rs)
  = (if bool_decide (mr_status r ∈ OP_STATUSES) then 1 else 0) + count_ops rs.
Proof.
  unfold count_ops. rewrite filter_cons.
  case_bool_decide; destruct (decide _); simpl; done.
Qed.

(** The loop of [move_all] from any point of the batch. *)
Lemma move_all_loop_spec self disk matches results ops results' self' disk' :
  FolderMover.move_all_loop self disk matches results ops
  = Ok (results', self', disk') →
  ∃ new,
    results' = results ++ new ∧
    length new ≤ length matches ∧
    map mr_case_id new = map case_id (take (length new) matches) ∧
    (∀ k limit, k < length new → FolderMover.max_moves self = Some limit →
                (ops + Z.of_nat (count_ops (take k new)) < limit)%Z) ∧
    (length new < length matches →
     ∃ limit, FolderMover.max_moves self = Some limit ∧
              (limit ≤ ops + Z.of_nat (count_ops new))%Z).
Proof.
  revert self disk results ops.
  induction matches as [|m rest IH]; intros self disk results ops; simpl.
  - intros [= <- <- <-]. exists []. rewrite app_nil_r. simpl.
    repeat split; auto; intros; lia.
  - destruct (FolderMover.max_moves self) as [limit|] eqn:Hmax.
    + case_bool_decide as Hstop.
      * intros [= <- <- <-]. exists []. rewrite app_nil_r. simpl.
        repeat split; auto; try (intros; lia).
        intros _. exists limit. split; [done|lia].
      * destruct (FolderMover.move_folder self disk m)
          as [[[r self1] disk1]|e] eqn:Hstep; simpl; [|done].
        apply engine_move_folder_inv in Hstep as [Hid Hmm].
        intros Hloop. apply IH in Hloop as (new & -> & Hlen & Hids & Hlow & Hhi).
        exists (r :: new). rewrite <-app_assoc. simpl.
        repeat split; [lia|by rewrite Hid, Hids| |].
        -- intros [|k] limit' Hk [= <-]; simpl; [unfold count_ops; simpl; lia|].
           rewrite count_ops_cons.
           specialize (Hlow k limit ltac:(lia) ltac:(congruence)).
           case_bool_decide; lia.
        -- intros Hlt. destruct Hhi as (limit' & Hl' & Hge); [lia|].
           exists limit. split; [done|]. rewrite count_ops_cons.
           assert (limit' = limit) as -> by congruence.
           case_bool_decide; lia.
    + destruct (FolderMover.move_folder self disk m)
        as [[[r self1] disk1]|e] eqn:Hstep; simpl; [|done].
      apply engine_move_folder_inv in Hstep as [Hid Hmm].
      intros Hloop. apply IH in Hloop as (new & -> & Hlen & Hids & Hlow & Hhi).
      exists (r :: new). rewrite <-app_assoc. simpl.
      repeat split; [lia|by rewrite Hid, Hids|done|].
      intros Hlt. destruct Hhi as (limit' & Hl' & Hge); [lia|]. congruence.
Qed.

(** C1: [move_all] handles the matches in order, one outcome per handled
    match carrying that match's identifier; it returns no more outcomes than
    there are matches, and fewer only when the budget [max_moves] has been
    reached by the outcomes whose status is an operation status; it goes on
    exactly as long as the operation outcomes so far stay under the budget. *)
Theorem move_all_outcomes self disk matches results self' disk' :
  FolderMover.move_all self disk matches = Ok (results, self', disk') →
  length results ≤ length matches ∧
  map mr_case_id results = map case_id (take (length results) matches) ∧
  (∀ k limit, k < length results → FolderMover.max_moves self = Some limit →
              (Z.of_nat (count_ops (take k results)) < limit)%Z) ∧
  (length results < length matches →
   ∃ limit, FolderMover.max_moves self = Some limit ∧
            (limit ≤ Z.of_nat (count_ops results))%Z) ∧
  (FolderMover.max_moves self = None → length results = length matches).
Proof.
  unfold FolderMover.move_all. intros Hrun.
  apply move_all_loop_spec in Hrun as (new & -> & Hlen & Hids & Hlow & Hhi).
  simpl. split; [done|]. split; [done|]. split; [|split].
  - intros k limit Hk Hm. specialize (Hlow k limit Hk Hm). lia.
  - intros Hlt. destruct (Hhi Hlt) as (limit & Hm & Hge).
    exists limit. split; [done|lia].
  - intros Hnone. destruct (decide (length new < length matches)) as [Hlt|]; [|lia].
    destruct (Hhi Hlt) as (limit & Hm & _). congruence.
Qed.

(** The short-circuit checks of the engine in the order they are made: an
    exclusion hit that is a non-empty pattern, then the resume set, then the
    missing source, then the skip policy for duplicates. *)
Lemma engine_precedence self disk m pat :
  FolderMover.exclude_patterns self ≠ [] →
  matches_exclusion_pattern (folder_name m) (FolderMover.exclude_patterns self)
  = Some pat →
  truthy pat = true →
  ∃ r self', FolderMover.move_folder self disk m = Ok (r, self', disk) ∧
             mr_status r = SKIPPED_EXCLUDED.
Proof.
  intros Hne Hpat Htr. unfold FolderMover.move_folder, FolderMover.skip.
  destruct (FolderMover.exclude_patterns self) eqn:Hp; [done|].
  rewrite Hpat, Htr. eauto.
Qed.

End engine_facts.

(** ** Runs on the concrete environment *)

Module Runs.
Import Sim Examples.

Lemma basename_candidates (nm : string) :
  bool_decide (Forall (λ k, basename (join "/dst" (candidate nm k)) = candidate nm k)
                 (seq 0 (S ATTEMPTS))) = true →
  ∀ k, k ≤ ATTEMPTS →
       path_name (path_join "/dst" (candidate nm k)) = candidate nm k.
Proof.
  intros Hall k Hk. apply bool_decide_eq_true_1 in Hall.
  rewrite Forall_forall in Hall. apply Hall, elem_of_seq. lia.
Qed.

Lemma crowded_full (claimed : gset string) k :
  k ≤ ATTEMPTS → is_free crowded "/dst" claimed (candidate "X" k) = false.
Proof.
  intros Hk. unfold is_free, path_exists. simpl.
  apply andb_false_iff. left. apply negb_false_iff.
  unfold exists_. apply bool_decide_eq_true_2.
  unfold crowded. apply (list_elem_of_fmap_2 (λ k, join "/dst" (candidate "X" k))).
  apply elem_of_seq. lia.
Qed.

(** Witness of C3: with My and My_1 on the disk, My_2 is resolved. *)
Lemma resolve_destination_first_free_witness :
  normalize_path "/dst" = Ok "/dst" ∧
  (resolve_destination ["/dst/My"; "/dst/My_1"] "/dst" "My" ∅).1
  = Ok "/dst/My_2".
Proof.
  split; [reflexivity|].
  destruct (resolve_destination_first_free (H:=env)
              ["/dst/My"; "/dst/My_1"] "/dst" "/dst" "My" ∅ eq_refl
              (basename_candidates "My" ltac:(vm_compute; reflexivity)))
    as (_ & Hsuffix & _).
  apply (Hsuffix 2).
  - split; [lia|]. apply Nat.leb_le. vm_compute. reflexivity.
  - vm_compute; reflexivity.
  - intros j Hj. assert (j = 1) as -> by lia. vm_compute; reflexivity.
  - vm_compute; reflexivity.
Defined.

(** Witness of C4 (amended): the crowded destination exhausts the resolver. *)
Lemma resolve_destination_exhausted_witness :
  normalize_path "/dst" = Ok "/dst" ∧
  (resolve_destination crowded "/dst" "X" ∅).1 = Raise (exhausted "X").
Proof.
  split; [reflexivity|].
  destruct (resolve_destination_exhausted (H:=env) crowded "/dst" "/dst" "X" ∅
              eq_refl) as [[Hraise _] _].
  apply Hraise. intros k Hk. by apply crowded_full.
Defined.

(** Counterexample to C4: on exhaustion the resolver raises a
    [RuntimeError], not an error type of its own. *)
Lemma resolve_exhaustion_is_runtime_error :
  ∃ e, (resolve_destination crowded "/dst" "X" ∅).1 = Raise e ∧
       exn_name (exn_type e) = "RuntimeError" ∧
       exn_name (exn_type e) ≠ "ResolutionExhaustedError".
Proof.
  exists (exhausted "X"). split; [|split; [reflexivity|discriminate]].
  apply (resolve_destination_raise (H:=env) crowded "/dst" "/dst" "X" ∅ eq_refl).
  intros k Hk. by apply crowded_full.
Qed.

(** Witness of C1: a budget of one operation stops the batch after the
    first move. *)
Lemma move_all_outcomes_witness :
  match budget_run with
  | Ok (results, _, _) =>
      length results ≤ length twice ∧
      map mr_case_id results = map case_id (take (length results) twice) ∧
      (∀ k limit, k < length results → Some 1%Z = Some limit →
                  (Z.of_nat (count_ops (take k results)) < limit)%Z) ∧
      (length results < length twice →
       ∃ limit, Some 1%Z = Some limit ∧
                (limit ≤ Z.of_nat (count_ops results))%Z) ∧
      (Some 1%Z = None → length results = length twice)
  | Raise _ => False
  end.
Proof.
  destruct budget_run as [[[results self'] disk']|e] eqn:Hrun.
  - exact (move_all_outcomes (H:=env) _ _ _ _ _ _ Hrun).
  - vm_compute in Hrun. discriminate.
Defined.

Example budget_run_statuses :
  statuses budget_run = Some [(SUCCESS, Some "/dst/C_1_2")].
Proof. vm_compute. reflexivity. Qed.

(** C2: with the patterns [""] and ["temp"], the folder my_temp, whose name
    contains temp, is not excluded: the empty pattern is the first hit and
    is falsy, so the engine goes on to the resume check. *)
Theorem empty_pattern_hides_exclusion :
  matches_exclusion_pattern "my_temp" [""; "temp"] = Some "" ∧
  matches_exclusion_pattern "my_temp" ["temp"] = Some "temp" ∧
  status1 (FolderMover.move_folder
             (engine false None [""; "temp"] {["/src/my_temp"]} dup_move_all ∅)
             ["/src/my_temp"; "/dst"]
             (mkFolderMatch "7" "/src/my_temp" "my_temp"))
  = Some SKIPPED_RESUME ∧
  status1 (FolderMover.move_folder
             (engine false None ["temp"] {["/src/my_temp"]} dup_move_all ∅)
             ["/src/my_temp"; "/dst"]
             (mkFolderMatch "7" "/src/my_temp" "my_temp"))
  = Some SKIPPED_EXCLUDED.
Proof. vm_compute. repeat split. Qed.

(** Counterexample to C8: the same source matched twice is moved and then
    missing in the live run, while the dry run reports two moves. *)
Lemma dry_run_differs_on_repeated_source :
  statuses (FolderMover.move_all (engine false None [] ∅ dup_move_all ∅)
              disk0 twice)
  = Some [(SUCCESS, Some "/dst/C_1_2"); (SKIPPED_MISSING, None)] ∧
  statuses (FolderMover.move_all (engine true None [] ∅ dup_move_all ∅)
              disk0 twice)
  = Some [(DRY_RUN, Some "/dst/C_1_2"); (DRY_RUN_RENAMED, Some "/dst/C_1_2_1")] ∧
  dry_variant SKIPPED_MISSING ≠ DRY_RUN_RENAMED.
Proof. vm_compute. repeat split. discriminate. Qed.

End Runs.

(** ** Report labels *)

Lemma quarantine_statuses_spec (status : MoveStatus) :
  status ∈ quarantine_statuses ↔
  status = QUARANTINED ∨ status = QUARANTINED_RENAMED ∨
  status = DRY_RUN_QUARANTINE ∨ status = DRY_RUN_QUARANTINE_RENAMED.
Proof.
  unfold quarantine_statuses. rewrite !elem_of_cons, elem_of_nil. tauto.
Qed.

(** C9 (amended): the label is overridden to MULTIPLE_MATCHES exactly when
    the status is not a quarantine-branch status and the identifier had more
    than one match, whatever the duplicates policy; a quarantine-branch
    status is never overridden, and without the override the label is the
    fixed one of the status. *)
Theorem report_label_override (status : MoveStatus) (is_multiple_match : bool) :
  (report_status_of status is_multiple_match = MULTIPLE_MATCHES ↔
   (status ∉ quarantine_statuses) ∧ is_multiple_match = true) ∧
  (report_status_of status is_multiple_match ≠ MULTIPLE_MATCHES →
   report_status_of status is_multiple_match = plain_label status) ∧
  (∀ r ts, re_status (write_move_result r is_multiple_match ts)
           = report_value (report_status_of (mr_status r) is_multiple_match)) ∧
  plain_label SUCCESS = MOVED ∧
  plain_label SUCCESS_RENAMED = MOVED_RENAMED ∧
  plain_label DRY_RUN = FOUND_DRYRUN ∧
  plain_label DRY_RUN_RENAMED = FOUND_DRYRUN_RENAMED ∧
  plain_label QUARANTINED = R_QUARANTINED ∧
  plain_label QUARANTINED_RENAMED = R_QUARANTINED_RENAMED ∧
  plain_label DRY_RUN_QUARANTINE = FOUND_DRYRUN_QUARANTINE ∧
  plain_label DRY_RUN_QUARANTINE_RENAMED = FOUND_DRYRUN_QUARANTINE_RENAMED ∧
  plain_label SKIPPED_MISSING = R_SKIPPED_MISSING ∧
  plain_label SKIPPED_EXISTS = R_SKIPPED_EXISTS ∧
  plain_label SKIPPED_EXCLUDED = R_SKIPPED_EXCLUDED ∧
  plain_label SKIPPED_RESUME = R_SKIPPED_RESUME ∧
  plain_label SKIPPED_DUPLICATE = R_SKIPPED_DUPLICATE ∧
  plain_label ERROR = R_ERROR ∧
  report_value R_QUARANTINED = "QUARANTINED"%string ∧
  report_value MOVED = "MOVED"%string.
Proof.
  split; [|split; [|repeat split]].
  - rewrite quarantine_statuses_spec.
    destruct status, is_multiple_match; vm_compute; split; intros Hx;
      first
        [ discriminate Hx
        | done
        | split; [intros Hq; repeat destruct Hq as [Hq|Hq]; discriminate|done]
        | destruct Hx as [Hq Hm];
          first [discriminate Hm | exfalso; apply Hq; auto 10] ].
  - destruct status, is_multiple_match; vm_compute; intros Hne; done.
Qed.

(** Witness of C9 (amended). *)
Lemma report_label_override_witness :
  report_status_of SKIPPED_MISSING true = MULTIPLE_MATCHES.
Proof.
  apply (proj1 (report_label_override SKIPPED_MISSING true)).
  split; [|reflexivity].
  rewrite quarantine_statuses_spec.
  intros Hq; repeat destruct Hq as [Hq|Hq]; discriminate.
Defined.

(** Counterexample to C9: under the skip policy the outcome of a duplicate
    identifier is labelled MULTIPLE_MATCHES as well. *)
Lemma multiple_matches_label_under_skip_policy :
  Examples.status1
    (FolderMover.move_folder
       (Examples.engine false None [] ∅ dup_skip {["1"%string]})
       Examples.disk0 (mkFolderMatch "1" "/src/C_1_2" "C_1_2"))
  = Some SKIPPED_DUPLICATE ∧
  report_status_of SKIPPED_DUPLICATE true = MULTIPLE_MATCHES ∧
  dup_skip ≠ dup_move_all.
Proof. vm_compute. repeat split. discriminate. Qed.

(** ** The matcher *)

Lemma startswith_length p s :
  startswith p s = true → String.length p ≤ String.length s.
Proof.
  revert s. induction p as [|a p IH]; intros [|b s]; simpl; try done; try lia.
  destruct (Ascii.eqb a b); [|done]. intros Hs. apply IH in Hs. lia.
Qed.

Lemma str_contains_length p s :
  str_contains p s = true → String.length p ≤ String.length s.
Proof.
  induction s as [|b s IH]; simpl.
  - apply startswith_length.
  - intros [Hs|Hs]%orb_true_iff.
    + by apply startswith_length in Hs.
    + apply IH in Hs. lia.
Qed.

Lemma str_contains_empty s : str_contains "" s = true.
Proof. by destruct s. Qed.

Lemma string_length_0 s : String.length s = 0 ↔ s = "".
Proof. by destruct s. Qed.

Lemma mult_cons k c l :
  mult k (c :: l) = (if decide (c = k) then 1 else 0) + mult k l.
Proof. unfold mult. rewrite filter_cons. by destruct (decide (c = k)). Qed.

Lemma mult_app k l1 l2 : mult k (l1 ++ l2) = mult k l1 + mult k l2.
Proof. unfold mult. by rewrite filter_app, length_app. Qed.

Lemma mult_pos k l : k ∈ l ↔ 0 < mult k l.
Proof.
  induction l as [|c l IH]; [rewrite elem_of_nil; unfold mult; simpl; lia|].
  rewrite elem_of_cons, mult_cons, IH.
  destruct (decide (c = k)) as [->|Hne].
  - split; [lia|auto].
  - split; [intros [?|?]; [congruence|lia]|intros; right; lia].
Qed.

Section append_loops.
Implicit Types (res : gmap string (list FolderEntry)) (keys : list string).

(** Appending one folder under each key of a list, all keys present. *)
Lemma appends_spec keys (f : FolderEntry) res :
  (∀ k, k ∈ keys → is_Some (res !! k)) →
  ∃ res', for_each (λ res k, append_to res k f) keys res = Ok res' ∧
          ∀ k, res' !! k = (λ l, l ++ replicate (mult k keys) f) <$> res !! k.
Proof.
  revert res. induction keys as [|k0 keys IH]; intros res Hin; simpl.
  - exists res. split; [done|]. intros k. unfold mult. simpl.
    destruct (res !! k); simpl; [by rewrite app_nil_r|done].
  - destruct (Hin k0) as [l0 Hl0]; [set_solver|].
    unfold append_to at 2. rewrite Hl0. simpl.
    destruct (IH (<[k0 := l0 ++ [f]]> res)) as (res' & Hrun & Hlk).
    { intros k Hk. destruct (decide (k = k0)) as [->|].
      - rewrite lookup_insert_eq. eauto.
      - rewrite lookup_insert_ne by done. apply Hin. set_solver. }
    exists res'. split; [done|]. intros k. rewrite Hlk, mult_cons.
    destruct (decide (k0 = k)) as [->|Hne].
    + rewrite lookup_insert_eq, Hl0. simpl. by rewrite <-app_assoc.
    + by rewrite lookup_insert_ne.
Qed.

Lemma for_each_app {A S} (body : S → A → result S) xs ys s :
  for_each body (xs ++ ys) s = (s' ← for_each body xs s; for_each body ys s').
Proof.
  revert s. induction xs as [|x xs IH]; intros s; simpl; [done|].
  destruct (body s x); simpl; auto.
Qed.

(** The loop over the folders, when each folder appends itself [cnt f k]
    times under the key [k]. *)
Lemma folders_loop_spec
    (body : gmap string (list FolderEntry) → FolderEntry
            → result (gmap string (list FolderEntry)))
    (cnt : FolderEntry → string → nat) (keys : list string) folders res :
  (∀ res f, (∀ k, k ∈ keys → is_Some (res !! k)) →
     ∃ res', body res f = Ok res' ∧
             ∀ k, res' !! k = (λ l, l ++ replicate (cnt f k) f) <$> res !! k) →
  (∀ k, k ∈ keys → is_Some (res !! k)) →
  ∃ res', for_each body folders res = Ok res' ∧
          ∀ k, res' !! k
               = (λ l, l ++ flat_map (λ f, replicate (cnt f k) f) folders)
                 <$> res !! k.
Proof.
  intros Hbody. revert res.
  induction folders as [|f folders IH]; intros res Hin; simpl.
  - exists res. split; [done|]. intros k.
    destruct (res !! k); simpl; [by rewrite app_nil_r|done].
  - destruct (Hbody res f Hin) as (res1 & -> & Hlk1). simpl.
    destruct (IH res1) as (res' & Hrun & Hlk).
    { intros k Hk. rewrite Hlk1. destruct (Hin k Hk) as [l ->]. simpl. eauto. }
    exists res'. split; [done|]. intros k. rewrite Hlk, Hlk1.
    destruct (res !! k); simpl; [by rewrite <-app_assoc|done].
Qed.

Lemma empty_results_lookup case_ids k :
  empty_results case_ids !! k = if decide (k ∈ case_ids) then Some [] else None.
Proof.
  unfold empty_results.
  assert (∀ m0 : gmap string (list FolderEntry),
            foldl (λ m cid, <[cid := []]> m) m0 case_ids !! k
            = if decide (k ∈ case_ids) then Some [] else m0 !! k) as Hgen.
  { induction case_ids as [|c l IH]; intros m0; simpl.
    - by destruct (decide (k ∈ [])) as [?%elem_of_nil|].
    - rewrite IH. destruct (decide (k ∈ l)).
      + by rewrite decide_True by set_solver.
      + destruct (decide (k = c)) as [->|].
        * rewrite lookup_insert_eq. by rewrite decide_True by set_solver.
        * rewrite lookup_insert_ne by done. by rewrite decide_False by set_solver. }
  rewrite Hgen. by destruct (decide (k ∈ case_ids)).
Qed.

End append_loops.

Section bucket_lists.
Implicit Types (l prepared : list (string * string)).

Lemma cumulative_of_lookup {A} (running : list A) (bs : list (list A)) i :
  i < length bs →
  cumulative_of running bs !! i = Some (running ++ concat (take (S i) bs)).
Proof.
  revert running i. induction bs as [|b bs IH]; intros running i Hi; simpl in *;
    [lia|].
  destruct i as [|i]; simpl.
  - by rewrite app_nil_r.
  - rewrite IH by lia. by rewrite <-app_assoc.
Qed.

(** The buckets up to length [n], laid out one after the other. *)
Lemma concat_take_buckets (bs : list (list (string * string))) prepared n :
  (∀ i, i < n →
        bs !! i = Some (filter (λ x, String.length x.2 = i) prepared)) →
  concat (take n bs)
  = flat_map (λ i, filter (λ x, String.length x.2 = i) prepared) (seq 0 n).
Proof.
  induction n as [|n IH]; intros Hbs; [by rewrite take_0|].
  rewrite (take_S_r bs n _ (Hbs n ltac:(lia))), concat_app, seq_S,
    flat_map_app, IH by (intros; apply Hbs; lia).
  simpl. by rewrite !app_nil_r.
Qed.

Lemma filter_length_split (P : string * string → Prop)
    `{!∀ x, Decision (P x)} l n :
  length (filter (λ x, P x ∧ String.length x.2 < S n) l)
  = length (filter (λ x, P x ∧ String.length x.2 < n) l)
    + length (filter P (filter (λ x, String.length x.2 = n) l)).
Proof.
  induction l as [|x l IH]; [done|].
  rewrite !filter_cons.
  destruct (decide (String.length x.2 = n)) as [Heq|Hne].
  - rewrite filter_cons.
    destruct (decide (P x)).
    + rewrite decide_True by (split; [done|lia]).
      rewrite decide_False by (intros [_ ?]; lia). simpl. lia.
    + rewrite !decide_False by (by intros [? _]). done.
  - destruct (decide (P x ∧ String.length x.2 < S n)) as [[HP Hlt]|Hn].
    + rewrite decide_True by (split; [done|lia]). simpl. lia.
    + rewrite decide_False by (intros [? ?]; apply Hn; split; [done|lia]). done.
Qed.

Lemma count_upto (P : string * string → Prop) `{!∀ x, Decision (P x)} l n :
  length (filter P
            (flat_map (λ i, filter (λ x, String.length x.2 = i) l) (seq 0 n)))
  = length (filter (λ x, P x ∧ String.length x.2 < n) l).
Proof.
  induction n as [|n IH].
  - simpl. symmetry. apply length_zero_iff_nil.
    induction l as [|x l IHl]; [done|].
    rewrite filter_cons, decide_False by (intros [_ ?]; lia). done.
  - rewrite seq_S, flat_map_app, filter_app, length_app, IH. simpl.
    rewrite app_nil_r. by rewrite filter_length_split.
Qed.

Lemma mult_map_fst k l :
  mult k (map fst l) = length (filter (λ x, x.1 = k) l).
Proof.
  induction l as [|x l IH]; [done|]. simpl.
  rewrite mult_cons, filter_cons, IH. by destruct (decide (x.1 = k)).
Qed.

End bucket_lists.

Section bucket_facts.
Context `{Env}.
Implicit Types (res : gmap string (list FolderEntry)).

Lemma fill_buckets_spec prepared (buckets : list (list (string * string))) M :
  length buckets = S M →
  Forall (λ x, String.length x.2 ≤ M) prepared →
  ∃ bs, fill_buckets prepared buckets = Ok bs ∧ length bs = S M ∧
        ∀ i, bs !! i
             = (λ b, b ++ filter (λ x, String.length x.2 = i) prepared)
               <$> buckets !! i.
Proof.
  unfold fill_buckets. revert buckets.
  induction prepared as [|[o n] prepared IH]; intros buckets Hlen Hall; simpl.
  - exists buckets. repeat split; [done|]. intros i.
    destruct (buckets !! i); simpl; [by rewrite app_nil_r|done].
  - apply Forall_cons in Hall as [Hn Hall]. simpl in Hn.
    destruct (lookup_lt_is_Some_2 buckets (String.length n)) as [b Hb]; [lia|].
    rewrite Hb. simpl.
    destruct (IH (<[String.length n := b ++ [(o, n)]]> buckets))
      as (bs & Hrun & Hlen' & Hlk); [by rewrite length_insert|done|].
    exists bs. repeat split; [done|done|]. intros i. rewrite Hlk, filter_cons.
    simpl. destruct (decide (String.length n = i)) as [<-|Hne].
    + rewrite list_lookup_insert_eq by lia. rewrite Hb. simpl.
      by rewrite <-app_assoc.
    + rewrite list_lookup_insert_ne by done. done.
Qed.

(** The identifiers prepared for matching that satisfy a property. *)
Lemma prepared_count cs ids k (Q : string → Prop) `{!∀ n, Decision (Q n)} :
  length (filter (λ x, x.1 = k ∧ Q x.2) (prepared_caseids cs ids))
  = if decide (Q (normalized cs k)) then mult k ids else 0.
Proof.
  unfold prepared_caseids. induction ids as [|c ids IH]; simpl.
  - by destruct (decide _).
  - rewrite filter_cons, mult_cons. simpl.
    destruct (decide (c = k)) as [->|Hne].
    + destruct (decide (Q (normalized cs k))).
      * rewrite decide_True by done. simpl. by rewrite IH.
      * rewrite decide_False by (by intros [_ ?]). by rewrite IH.
    + rewrite decide_False by (by intros [? _]). by rewrite IH.
Qed.

Lemma max_length_ge ids cid :
  cid ∈ ids → String.length cid ≤ max_length ids.
Proof.
  induction ids as [|c ids IH]; [by intros ?%elem_of_nil|].
  intros [->|Hin]%elem_of_cons; simpl; [lia|]. apply IH in Hin. lia.
Qed.

(** The inner loop of the bucket matcher appends under the originals of the
    applicable identifiers the folder name contains. *)
Lemma bucket_inner_loop (app : list (string * string)) fname f res :
  for_each
    (λ results '(original, normalized),
       if str_contains normalized fname
       then append_to results original f else Ok results) app res
  = for_each (λ res k, append_to res k f)
      (map fst (filter (λ x, str_contains x.2 fname = true) app)) res.
Proof.
  revert res. induction app as [|[o n] app IH]; intros res; simpl; [done|].
  rewrite filter_cons. simpl.
  destruct (str_contains n fname) eqn:Hc; simpl.
  - destruct (append_to res o f); simpl; auto.
  - apply IH.
Qed.

End bucket_facts.

Section bucket_matcher.
Context `{Env}.
Implicit Types (res : gmap string (list FolderEntry)).

Lemma elem_of_bucket_layout (prepared : list (string * string)) n x :
  x ∈ flat_map (λ i, filter (λ x, String.length x.2 = i) prepared) (seq 0 n) →
  x ∈ prepared.
Proof.
  rewrite list_elem_of_In, in_flat_map. intros (i & _ & Hx).
  apply list_elem_of_In in Hx. by apply list_elem_of_filter in Hx as [_ ?].
Qed.

Lemma elem_of_prepared cs ids x :
  x ∈ prepared_caseids cs ids → x.1 ∈ ids.
Proof.
  unfold prepared_caseids. intros (c & -> & Hc)%list_elem_of_fmap. done.
Qed.

Lemma matched_alt cs ids k folders :
  flat_map (λ f, replicate (if hits cs k f then mult k ids else 0) f) folders
  = matched cs ids k folders.
Proof.
  unfold matched. induction folders as [|f folders IH]; simpl; [done|].
  rewrite IH. by destruct (hits cs k f).
Qed.

(** What the bucket matcher returns: every identifier is a key, and under
    it the hits in folder order. *)
Lemma bucket_lookup cs ids folders :
  bucket_safe cs ids →
  ∃ m, match_with_length_buckets ids folders cs = Ok m ∧
       ∀ k, m !! k = if decide (k ∈ ids)
                     then Some (matched cs ids k folders) else None.
Proof.
  intros Hsafe. unfold match_with_length_buckets.
  set (M := max_length ids). set (prepared := prepared_caseids cs ids).
  destruct (fill_buckets_spec prepared (replicate (M + 1) []) M)
    as (bs & -> & Hlen & Hbs).
  { rewrite length_replicate. lia. }
  { unfold prepared, prepared_caseids. apply Forall_fmap.
    eapply Forall_impl; [exact Hsafe|]. done. }
  simpl.
  assert (∀ i, i < S M →
               bs !! i = Some (filter (λ x, String.length x.2 = i) prepared))
    as Hbucket.
  { intros i Hi. rewrite Hbs, lookup_replicate_2 by lia. done. }
  destruct (folders_loop_spec
    (λ results folder,
       let folder_name := normalized cs (name folder) in
       let name_len := String.length folder_name in
       let applicable := applicable_for (cumulative_of [] bs) M name_len in
       for_each
         (λ results '(original, normalized),
            if str_contains normalized folder_name
            then append_to results original folder
            else Ok results)
         applicable results)
    (λ f k, if hits cs k f then mult k ids else 0)
    ids folders (empty_results ids)) as (m & Hrun & Hlk).
  - intros res f Hkeys. cbv zeta.
    set (fname := normalized cs (name f)).
    rewrite bucket_inner_loop.
    unfold applicable_for.
    destruct (decide (String.length fname = 0)) as [H0|Hpos].
    + simpl. exists res. split; [done|]. intros k.
      unfold hits. fold fname. apply string_length_0 in H0.
      rewrite bool_decide_eq_true_2 by done. simpl.
      destruct (res !! k); simpl; [by rewrite app_nil_r|done].
    + set (j := if decide (M < String.length fname)
                then M else String.length fname).
      assert (j ≤ M ∧ j ≤ String.length fname ∧
              (M ≤ j ∨ String.length fname ≤ j)) as Hj.
      { unfold j. destruct (decide _); lia. }
      assert ((if decide (M < String.length fname)
               then default [] (cumulative_of [] bs !! M)
               else default [] (cumulative_of [] bs !! String.length fname))
              = flat_map (λ i, filter (λ x, String.length x.2 = i) prepared)
                  (seq 0 (S j))) as ->.
      { transitivity (default [] (cumulative_of [] bs !! j)).
        { unfold j. by destruct (decide _). }
        rewrite cumulative_of_lookup by lia.
        rewrite (concat_take_buckets bs prepared (S j))
          by (intros i Hi; apply Hbucket; lia).
        done. }
      destruct (appends_spec
        (map fst (filter (λ x, str_contains x.2 fname = true)
           (flat_map (λ i, filter (λ x, String.length x.2 = i) prepared)
              (seq 0 (S j))))) f res) as (res' & Hres' & Hlk').
      { intros k (x & -> & Hx)%list_elem_of_fmap. apply Hkeys.
        apply list_elem_of_filter in Hx as [_ Hx].
        apply elem_of_bucket_layout in Hx. by apply elem_of_prepared in Hx. }
      exists res'. split; [done|]. intros k. rewrite Hlk'. f_equal.
      apply (f_equal (λ n, λ l : list FolderEntry, l ++ replicate n f)).
      rewrite mult_map_fst, list_filter_filter.
      rewrite (count_upto (λ x, x.1 = k ∧ str_contains x.2 fname = true)).
      rewrite (list_filter_iff _
        (λ x, x.1 = k ∧ (str_contains x.2 fname = true
                         ∧ String.length x.2 < S j)))
        by (intros x; tauto).
      unfold prepared.
      pose proof (prepared_count cs ids k
        (λ n, str_contains n fname = true ∧ String.length n < S j)) as Hpc.
      cbv beta in Hpc. rewrite Hpc. clear Hpc.
      unfold hits. fold fname.
      rewrite bool_decide_eq_false_2
        by (intros ?%string_length_0; lia).
      simpl.
      destruct (decide (k ∈ ids)) as [Hin|Hout].
      * destruct (str_contains (normalized cs k) fname) eqn:Hc.
        -- rewrite decide_True; [done|]. split; [done|].
           apply str_contains_length in Hc.
           unfold bucket_safe in Hsafe. rewrite Forall_forall in Hsafe.
           specialize (Hsafe k Hin). fold M in Hsafe. lia.
        -- rewrite decide_False; [done|]. by intros [? _].
      * assert (mult k ids = 0) as ->.
        { destruct (mult k ids) eqn:Hm; [done|].
          exfalso. apply Hout, mult_pos. lia. }
        by repeat destruct (_ : {_} + {_}); destruct (str_contains _ _).
  - intros k Hk. rewrite empty_results_lookup, decide_True by done. eauto.
  - exists m. split; [done|]. intros k.
    rewrite Hlk, empty_results_lookup.
    destruct (decide (k ∈ ids)); simpl; [|done].
    by rewrite matched_alt.
Qed.

End bucket_matcher.

Section aho_matcher.
Context `{Env} `{Automaton}.
Implicit Types (res : gmap string (list FolderEntry)).

Lemma pattern_to_caseids_lookup cs ids p :
  default [] (pattern_to_caseids cs ids !! p)
  = filter (λ c, normalized cs c = p) ids.
Proof.
  unfold pattern_to_caseids.
  assert (∀ m0 : gmap string (list string),
            default []
              (foldl (λ m case_id,
                        <[normalized cs case_id
                          := default [] (m !! normalized cs case_id) ++ [case_id]]> m)
                 m0 ids !! p)
            = default [] (m0 !! p) ++ filter (λ c, normalized cs c = p) ids)
    as Hgen.
  { induction ids as [|c ids IH]; intros m0; simpl; [by rewrite app_nil_r|].
    rewrite IH, filter_cons.
    destruct (decide (normalized cs c = p)) as [->|Hne].
    - rewrite lookup_insert_eq. simpl. by rewrite <-app_assoc.
    - by rewrite lookup_insert_ne. }
  by rewrite Hgen, lookup_empty.
Qed.

Lemma aho_inner_loop (g : string → list string) (pats : list string) f res :
  for_each
    (λ res pattern, for_each (λ res cid, append_to res cid f) (g pattern) res)
    pats res
  = for_each (λ res k, append_to res k f) (flat_map g pats) res.
Proof.
  revert res. induction pats as [|p pats IH]; intros res; simpl; [done|].
  rewrite for_each_app.
  destruct (for_each _ (g p) res); simpl; auto.
Qed.

Lemma mult_filter (P : string → Prop) `{!∀ c, Decision (P c)} k ids :
  mult k (filter P ids) = if decide (P k) then mult k ids else 0.
Proof.
  induction ids as [|c ids IH]; simpl; [by destruct (decide _)|].
  rewrite filter_cons.
  destruct (decide (P c)); rewrite !mult_cons, ?IH;
    destruct (decide (c = k)) as [->|]; destruct (decide (P k));
    simpl; try done; lia.
Qed.

Lemma mult_patterns cs ids k (pats : list string) :
  NoDup pats →
  mult k (flat_map (λ p, filter (λ c, normalized cs c = p) ids) pats)
  = if decide (normalized cs k ∈ pats) then mult k ids else 0.
Proof.
  induction 1 as [|p pats Hnot Hnd IH]; simpl.
  - done.
  - rewrite mult_app, IH, (mult_filter (λ c, normalized cs c = p)).
    destruct (decide (normalized cs k = p)) as [Heq|Hne];
      destruct (decide (normalized cs k ∈ pats));
      destruct (decide (normalized cs k ∈ p :: pats)) as [Hc|Hc];
      first [lia | exfalso; set_solver].
Qed.

(** What the automaton matcher returns when no identifier is empty. *)
Lemma aho_lookup cs ids folders :
  set_order_ok → automaton_ok →
  ids ≠ [] → "" ∉ map (normalized cs) ids →
  ∃ m, match_with_ahocorasick ids folders cs = Ok m ∧
       ∀ k, m !! k = if decide (k ∈ ids)
                     then Some (matched cs ids k folders) else None.
Proof.
  intros Hset Haho Hne Hnonempty. unfold match_with_ahocorasick.
  destruct (folders_loop_spec
    (λ results folder,
       let folder_name := normalized cs (name folder) in
       values ← automaton_iter (map (normalized cs) ids) folder_name;
       let matched_patterns := set_order values in
       for_each
         (λ results pattern,
            for_each (λ results case_id, append_to results case_id folder)
              (default [] (pattern_to_caseids cs ids !! pattern)) results)
         matched_patterns results)
    (λ f k, if hits cs k f then mult k ids else 0)
    ids folders (empty_results ids)) as (m & Hrun & Hlk).
  - intros res f Hkeys. cbv zeta.
    set (fname := normalized cs (name f)).
    destruct (Haho (map (normalized cs) ids) fname) as (vals & -> & Hvals);
      [by destruct ids|done|].
    simpl. destruct (Hset vals) as [Hnd Hmem].
    rewrite aho_inner_loop.
    rewrite (flat_map_ext _ (λ p, filter (λ c, normalized cs c = p) ids))
      by (intros p; apply pattern_to_caseids_lookup).
    destruct (appends_spec
      (flat_map (λ p, filter (λ c, normalized cs c = p) ids) (set_order vals))
      f res) as (res' & Hres' & Hlk').
    { intros k Hk. apply Hkeys.
      apply list_elem_of_In, in_flat_map in Hk as (p & _ & Hk).
      apply list_elem_of_In in Hk. by apply list_elem_of_filter in Hk as [_ ?]. }
    exists res'. split; [done|]. intros k. rewrite Hlk'. f_equal.
    apply (f_equal (λ n, λ l : list FolderEntry, l ++ replicate n f)).
    rewrite mult_patterns by done.
    destruct (decide (k ∈ ids)) as [Hin|Hout].
    + assert (normalized cs k ∈ set_order vals
              ↔ str_contains (normalized cs k) fname = true) as Hiff.
      { rewrite Hmem, Hvals. split; [by intros [_ ?]|]. intros Hc.
        split; [|done]. by apply list_elem_of_fmap_2. }
      assert (hits cs k f = str_contains (normalized cs k) fname) as ->.
      { unfold hits. fold fname.
        destruct (str_contains (normalized cs k) fname) eqn:Hc;
          [|by rewrite andb_false_r].
        rewrite andb_true_r. apply negb_true_iff, bool_decide_eq_false_2.
        intros Hempty. apply str_contains_length in Hc.
        rewrite Hempty in Hc. simpl in Hc.
        apply Hnonempty.
        assert (normalized cs k = "") as <-
          by (apply string_length_0; lia).
        by apply list_elem_of_fmap_2. }
      destruct (str_contains (normalized cs k) fname).
      * by rewrite decide_True by (by apply Hiff).
      * rewrite decide_False; [done|]. intros ?%Hiff. done.
    + assert (mult k ids = 0) as ->.
      { destruct (mult k ids) eqn:Hm; [done|].
        exfalso. apply Hout, mult_pos. lia. }
      by destruct (decide _), (hits cs k f).
  - intros k Hk. rewrite empty_results_lookup, decide_True by done. eauto.
  - exists m. split; [done|]. intros k.
    rewrite Hlk, empty_results_lookup.
    destruct (decide (k ∈ ids)); simpl; [|done].
    by rewrite matched_alt.
Qed.

Lemma elem_of_matched cs ids k folders f :
  f ∈ matched cs ids k folders
  ↔ f ∈ folders ∧ hits cs k f = true ∧ 0 < mult k ids.
Proof.
  unfold matched. induction folders as [|g folders IH]; simpl.
  - rewrite !elem_of_nil. tauto.
  - rewrite elem_of_app, IH, elem_of_cons.
    destruct (hits cs k g) eqn:Hg.
    + rewrite elem_of_replicate. split.
      * intros [[-> Hm]|(?&?&?)]; [repeat split; auto; lia|tauto].
      * intros ([->|Hin] & Hh & Hm); [left; split; [done|lia]|tauto].
    + rewrite elem_of_nil. split.
      * intros [[]|(?&?&?)]. tauto.
      * intros ([->|Hin] & Hh & Hm); [congruence|tauto].
Qed.

(** The default matcher through [match_caseids]. *)
Lemma match_caseids_bucket_lookup cs ids folders :
  bucket_safe cs ids →
  ∃ m, match_caseids ids folders cs bucket = Ok m ∧
       ∀ k, m !! k = if decide (k ∈ ids)
                     then Some (matched cs ids k folders) else None.
Proof.
  intros Hsafe. unfold match_caseids.
  destruct (bool_decide (ids = []) || bool_decide (folders = [])) eqn:Hearly.
  - exists (empty_results ids). split; [done|]. intros k.
    rewrite empty_results_lookup.
    destruct (decide (k ∈ ids)) as [Hin|]; [|done].
    apply orb_true_iff in Hearly as [Hi|Hf].
    + apply bool_decide_eq_true_1 in Hi. subst. by apply elem_of_nil in Hin.
    + apply bool_decide_eq_true_1 in Hf. by subst.
  - by apply bucket_lookup.
Qed.

End aho_matcher.

Section matcher_claims.
Context `{Env} `{Automaton}.

(** C5 (amended): every identifier passed in is a key of the result, and a
    folder is listed under an identifier exactly when it is in the folder
    list, its case-folded name is not empty and contains the case-folded
    identifier (the names as they are when matching is case-sensitive). *)
Theorem matcher_substring_law cs ids folders :
  bucket_safe cs ids →
  ∃ m, match_caseids ids folders cs bucket = Ok m ∧
       (∀ cid, cid ∈ ids ↔ is_Some (m !! cid)) ∧
       (∀ cid l f, m !! cid = Some l →
          (f ∈ l ↔ f ∈ folders ∧ normalized cs (name f) ≠ "" ∧
                   str_contains (normalized cs cid) (normalized cs (name f))
                   = true)).
Proof.
  intros Hsafe.
  destruct (match_caseids_bucket_lookup cs ids folders Hsafe) as (m & Hrun & Hlk).
  exists m. split; [done|]. split.
  - intros cid. rewrite Hlk. destruct (decide (cid ∈ ids)).
    + split; [eauto|done].
    + split; [done|]. by intros [? ?].
  - intros cid l f. rewrite Hlk.
    destruct (decide (cid ∈ ids)) as [Hin|]; [|done]. intros [= <-].
    rewrite elem_of_matched. unfold hits.
    rewrite andb_true_iff, negb_true_iff, bool_decide_eq_false.
    apply mult_pos in Hin. tauto.
Qed.

(** C6 (amended): an empty identifier is accepted, and every folder of the
    list whose case-folded name is not empty is listed under it. *)
Theorem empty_identifier_matches_named_folders cs folders :
  normalized cs "" = "" →
  ∃ m l, match_caseids [""] folders cs bucket = Ok m ∧
         m !! "" = Some l ∧
         ∀ f, f ∈ l ↔ f ∈ folders ∧ normalized cs (name f) ≠ "".
Proof.
  intros Hempty.
  destruct (match_caseids_bucket_lookup cs [""] folders) as (m & Hrun & Hlk).
  { apply Forall_singleton. rewrite Hempty. simpl. lia. }
  exists m, (matched cs [""] "" folders). split; [done|]. split.
  - rewrite Hlk. by rewrite decide_True by apply list_elem_of_here.
  - intros f. rewrite elem_of_matched. unfold hits.
    rewrite Hempty, str_contains_empty, andb_true_r, negb_true_iff,
      bool_decide_eq_false.
    assert (0 < mult "" [""]) by (apply mult_pos, list_elem_of_here).
    tauto.
Qed.

(** X12: when no identifier is empty after case folding and every
    case-folded identifier has its bucket, the bucket matcher and the
    automaton matcher return the same mapping, and the bucket matcher
    returns. *)
Theorem matchers_agree_without_empty_identifier cs ids folders :
  set_order_ok → automaton_ok →
  bucket_safe cs ids →
  "" ∉ map (normalized cs) ids →
  match_caseids ids folders cs aho = match_caseids ids folders cs bucket ∧
  is_ok (match_caseids ids folders cs bucket) = true.
Proof.
  intros Hset Haho Hsafe Hnonempty.
  destruct (match_caseids_bucket_lookup cs ids folders Hsafe) as (m & Hrun & Hlk).
  split; [|by rewrite Hrun].
  unfold match_caseids in *.
  destruct (bool_decide (ids = []) || bool_decide (folders = [])) eqn:Hearly;
    [done|].
  destruct HAS_AHOCORASICK; [|done].
  destruct (aho_lookup cs ids folders Hset Haho) as (m' & Hrun' & Hlk');
    [|done|].
  { intros ->. simpl in Hearly. done. }
  rewrite Hrun, Hrun'. f_equal. apply map_eq. intros k. by rewrite Hlk, Hlk'.
Qed.

End matcher_claims.

(** ** Matcher runs on the concrete environment *)

Module MatcherRuns.
Import Sim MatcherExamples.

Lemma ascii_lower_length s : String.length (ascii_lower s) = String.length s.
Proof. induction s as [|c s IH]; simpl; [done|]. by rewrite IH. Qed.

Lemma ascii_lower_empty s : ascii_lower s = "" ↔ s = "".
Proof. by destruct s. Qed.

Lemma sim_set_order_ok : set_order_ok.
Proof.
  intros l. split; [apply NoDup_remove_dups|]. intros x.
  apply elem_of_remove_dups.
Qed.

Lemma pyaho_ok : automaton_ok.
Proof.
  intros words text Hne Hnonempty. simpl. unfold pyaho_iter.
  assert (filter (λ w, w ≠ "") words = words) as ->.
  { clear Hne. induction words as [|w words IH]; [done|].
    rewrite filter_cons, decide_True by set_solver.
    rewrite IH by set_solver. done. }
  destruct words as [|w words]; [done|].
  eexists. split; [done|]. intros p. rewrite list_elem_of_filter. tauto.
Qed.

Lemma sim_bucket_safe ids : bucket_safe false ids.
Proof.
  apply Forall_forall. intros cid Hin. simpl.
  rewrite ascii_lower_length. by apply max_length_ge.
Qed.

(** Witness of C5 (amended). *)
Lemma matcher_substring_law_witness :
  bucket_safe false case_ids ∧
  ∃ m, match_caseids case_ids [fA; fB; fC] false bucket = Ok m ∧
       (∀ cid, cid ∈ case_ids ↔ is_Some (m !! cid)) ∧
       (∀ cid l f, m !! cid = Some l →
          (f ∈ l ↔ f ∈ [fA; fB; fC] ∧ normalized false (name f) ≠ "" ∧
                   str_contains (normalized false cid)
                     (normalized false (name f)) = true)).
Proof.
  split; [apply sim_bucket_safe|].
  exact (matcher_substring_law false case_ids [fA; fB; fC]
           (sim_bucket_safe case_ids)).
Defined.

Example listing_00123 :
  listing (match_caseids case_ids [fA; fB; fC] false bucket) "00123"
  = Some [fA; fB].
Proof. vm_compute. reflexivity. Qed.

(** Counterexample to C5: the empty identifier is a substring of the empty
    folder name, yet the folder is not listed. *)
Lemma empty_name_is_never_listed :
  str_contains (normalized false "") (normalized false (name unnamed)) = true ∧
  listing (match_caseids [""] [unnamed] false bucket) "" = Some [].
Proof. vm_compute. split; reflexivity. Qed.

(** Witness of C6 (amended). *)
Lemma empty_identifier_matches_named_folders_witness :
  normalized false "" = "" ∧
  ∃ m l, match_caseids [""] [fA; unnamed] false bucket = Ok m ∧
         m !! "" = Some l ∧
         ∀ f, f ∈ l ↔ f ∈ [fA; unnamed] ∧ normalized false (name f) ≠ "".
Proof.
  split; [reflexivity|].
  exact (empty_identifier_matches_named_folders false [fA; unnamed] eq_refl).
Defined.

(** Counterexample to C6: whatever the folder list, the empty identifier is
    accepted and every folder with a non-empty name is listed under it. *)
Lemma empty_identifier_lists_every_named_folder :
  listing (match_caseids [""] [fA; fB] false bucket) "" = Some [fA; fB] ∧
  (∀ folders, ∃ m l,
     match_caseids [""] folders false bucket = Ok m ∧
     m !! "" = Some l ∧
     ∀ f, f ∈ folders → name f ≠ "" → f ∈ l).
Proof.
  split; [vm_compute; reflexivity|].
  intros folders.
  destruct (match_caseids_bucket_lookup false [""] folders
              (sim_bucket_safe [""])) as (m & Hrun & Hlk).
  exists m, (matched false [""] "" folders). split; [done|]. split.
  - rewrite Hlk. by rewrite decide_True by apply list_elem_of_here.
  - intros f Hin Hname. apply elem_of_matched. split; [done|]. split.
    + unfold hits. simpl. rewrite str_contains_empty, andb_true_r.
      apply negb_true_iff, bool_decide_eq_false_2.
      by rewrite ascii_lower_empty.
    + apply mult_pos, list_elem_of_here.
Qed.

(** Witness of X12. *)
Lemma matchers_agree_without_empty_identifier_witness :
  "" ∉ map (normalized false) case_ids ∧
  match_caseids case_ids [fA; fB; fC] false aho
  = match_caseids case_ids [fA; fB; fC] false bucket.
Proof.
  assert ("" ∉ map (normalized false) case_ids) as Hnonempty.
  { apply (bool_decide_eq_false_1 _). vm_compute. reflexivity. }
  split; [exact Hnonempty|].
  exact (proj1 (matchers_agree_without_empty_identifier false case_ids
                  [fA; fB; fC] sim_set_order_ok pyaho_ok
                  (sim_bucket_safe case_ids) Hnonempty)).
Defined.

(** C7: the two matchers do not return the same mapping when an identifier
    is empty: the automaton does not store the empty identifier and lists
    nothing under it, the bucket matcher finds it in every named folder. *)
Lemma matchers_differ_on_empty_identifier :
  listing (match_caseids [""; "x"] [fx] false aho) "" = Some [] ∧
  listing (match_caseids [""; "x"] [fx] false bucket) "" = Some [fx] ∧
  match_caseids [""; "x"] [fx] false aho
  ≠ match_caseids [""; "x"] [fx] false bucket.
Proof.
  assert (listing (match_caseids [""; "x"] [fx] false aho) "" = Some [])
    as Ha by (vm_compute; reflexivity).
  assert (listing (match_caseids [""; "x"] [fx] false bucket) "" = Some [fx])
    as Hb by (vm_compute; reflexivity).
  split; [done|]. split; [done|].
  intros Heq. rewrite Heq, Hb in Ha. discriminate.
Qed.

End MatcherRuns.

(** ** Further properties of the move engine *)

Section engine_extras.
Context `{Env}.
Implicit Types (self : FolderMover.t) (disk : fs) (m : FolderMatch).

(** X1: [matches_exclusion_pattern] returns the first pattern of the list that
    hits the folder name, and [None] exactly when no pattern hits. *)
Theorem matches_exclusion_pattern_first nm pats :
  (∀ p, matches_exclusion_pattern nm pats = Some p ↔
        ∃ pre post, pats = pre ++ p :: post ∧ pattern_hits nm p = true ∧
                    Forall (λ q, pattern_hits nm q = false) pre) ∧
  (matches_exclusion_pattern nm pats = None ↔
   Forall (λ q, pattern_hits nm q = false) pats).
Proof.
  induction pats as [|q pats [IHs IHn]]; simpl.
  - split.
    + intros p. split; [done|]. intros (pre & post & Heq & _).
      by destruct pre.
    + by split.
  - fold (pattern_hits nm q).
    assert ((if fnmatch (lower nm) (lower q) then Some q
             else if str_contains (lower q) (lower nm) then Some q
                  else matches_exclusion_pattern nm pats)
            = if pattern_hits nm q then Some q
              else matches_exclusion_pattern nm pats) as ->.
    { unfold pattern_hits. by destruct (fnmatch _ _), (str_contains _ _). }
    destruct (pattern_hits nm q) eqn:Hq; split.
    + intros p. split.
      * intros [= <-]. exists [], pats. by repeat split.
      * intros (pre & post & Heq & Hp & Hpre).
        destruct pre as [|q' pre]; simpl in Heq.
        -- by injection Heq as ->.
        -- injection Heq as -> _. apply Forall_cons in Hpre as [? _].
           congruence.
    + split; [done|]. intros [? _]%Forall_cons. congruence.
    + intros p. rewrite IHs. split.
      * intros (pre & post & -> & Hp & Hpre). exists (q :: pre), post.
        repeat split; [done|]. by apply Forall_cons.
      * intros (pre & post & Heq & Hp & Hpre).
        destruct pre as [|q' pre]; simpl in Heq.
        -- injection Heq as -> _. congruence.
        -- injection Heq as -> ->. apply Forall_cons in Hpre as [_ ?].
           by exists pre, post.
    + rewrite IHn, Forall_cons. tauto.
Qed.

(** X2: The module-level [move_folder] makes its checks in a fixed order,
    touches the disk only when it moves, and reports SUCCESS only after
    [safe_move] succeeded on a source directory with a free destination. *)
Theorem move_folder_checks disk src dest dry src_str dest_str r disk' :
  normalize_path src = Ok src_str →
  normalize_path dest = Ok dest_str →
  move_folder disk src dest dry = Ok (r, disk') →
  mr_case_id r = "" ∧ mr_source_path r = src_str ∧
  mr_status r ∈ [SKIPPED_MISSING; ERROR; SKIPPED_EXISTS; DRY_RUN; SUCCESS] ∧
  (os_path_exists disk (check_path src_str) = false →
   mr_status r = SKIPPED_MISSING ∧ mr_dest_path r = None ∧ disk' = disk) ∧
  (os_path_exists disk (check_path src_str) = true →
   os_path_isdir disk (check_path src_str) = false →
   mr_status r = ERROR ∧ mr_dest_path r = None ∧ disk' = disk) ∧
  (os_path_exists disk (check_path src_str) = true →
   os_path_isdir disk (check_path src_str) = true →
   (os_path_exists disk (check_path dest_str) = true →
    mr_status r = SKIPPED_EXISTS ∧ disk' = disk) ∧
   (os_path_exists disk (check_path dest_str) = false → dry = true →
    mr_status r = DRY_RUN ∧ disk' = disk) ∧
   mr_dest_path r = Some dest_str) ∧
  (mr_status r = SUCCESS →
   dry = false ∧
   os_path_exists disk (check_path src_str) = true ∧
   os_path_isdir disk (check_path src_str) = true ∧
   os_path_exists disk (check_path dest_str) = false ∧
   ∃ disk1 message,
     os_makedirs disk (check_path (path_parent dest_str)) = Ok disk1 ∧
     safe_move disk1 src_str dest_str = (true, message, disk')) ∧
  (mr_status r ≠ SUCCESS → mr_status r ≠ ERROR → disk' = disk).
Proof.
  unfold move_folder, check_path, mbind, result_bind.
  intros -> -> Hr.
  repeat (case_match; simplify_eq/=; try done);
    repeat match goal with
           | Hn : negb _ = true |- _ => apply negb_true_iff in Hn
           | Hn : negb _ = false |- _ => apply negb_false_iff in Hn
           end;
    repeat split; intros; simplify_eq/=;
    try done; try congruence; try set_solver; eauto.
Qed.

(** The statuses of the module-level [move_folder]. *)
Lemma move_folder_statuses disk src dest dry r disk' :
  move_folder disk src dest dry = Ok (r, disk') →
  mr_status r ∈ [SKIPPED_MISSING; ERROR; SKIPPED_EXISTS; DRY_RUN; SUCCESS] ∧
  (dry = true → mr_status r ≠ SUCCESS ∧ disk' = disk) ∧
  (dry = false → mr_status r ≠ DRY_RUN).
Proof.
  unfold move_folder, mbind, result_bind. intros Hr.
  repeat (case_match; simplify_eq/=; try done);
    repeat split; intros; simplify_eq/=; try done; set_solver.
Qed.

Ltac unfold_step :=
  unfold FolderMover.move_folder, FolderMover.move_to_quarantine,
    FolderMover.skip, exclusion_hit, resume_key, mbind, result_bind in *.

Ltac crunch := repeat (case_match; simplify_eq/=; try done).

(** One step of the engine leaves its configuration as it is. *)
Lemma engine_step_config self disk m r self' disk' :
  FolderMover.move_folder self disk m = Ok (r, self', disk') →
  FolderMover.dest_root self' = FolderMover.dest_root self ∧
  FolderMover.dry_run self' = FolderMover.dry_run self ∧
  FolderMover.exclude_patterns self' = FolderMover.exclude_patterns self ∧
  FolderMover.on_dest_exists self' = FolderMover.on_dest_exists self ∧
  FolderMover.duplicates_action self' = FolderMover.duplicates_action self ∧
  FolderMover.duplicate_case_ids self' = FolderMover.duplicate_case_ids self ∧
  FolderMover.normalized_moved_paths self'
  = FolderMover.normalized_moved_paths self.
Proof.
  unfold_step. unfold FolderMover.resolve_quarantine_destination, mbind,
    result_bind. intros Hr. crunch.
Qed.


Lemma engine_excluded_eq pats nm :
  match pats with
  | [] => None
  | _ :: _ =>
      match matches_exclusion_pattern nm pats with
      | Some matched_pattern =>
          if truthy matched_pattern then Some matched_pattern else None
      | None => None
      end
  end = exclusion_hit pats nm.
Proof. by destruct pats. Qed.

(** The branches of [FolderMover.move_folder], each with the checks that
    lead to it and the outcome it returns. *)
Lemma engine_step_elim self disk m
    (P : MoveResult → FolderMover.t → fs → Prop) :
  let moved := FolderMover.normalized_moved_paths self in
  let nm := folder_name m in
  let src := source_path m in
  let cid := case_id m in
  let resumed key := key ∈ moved ∨ src ∈ moved in
  let is_dup action :=
    cid ∈ FolderMover.duplicate_case_ids self ∧
    FolderMover.duplicates_action self = action in
  let taken :=
    path_exists disk (path_join (FolderMover.dest_root self) nm) = true ∨
    nm ∈ FolderMover.claimed_names self in
  let skipped dest status msg :=
    P (mkMoveResult cid src dest status msg)
      (FolderMover.count_status self status) disk in
  (∀ p msg, exclusion_hit (FolderMover.exclude_patterns self) nm = Some p →
            skipped None SKIPPED_EXCLUDED msg) →
  (∀ key msg, exclusion_hit (FolderMover.exclude_patterns self) nm = None →
              resume_key m = Ok key → resumed key →
              skipped None SKIPPED_RESUME msg) →
  (∀ key msg, exclusion_hit (FolderMover.exclude_patterns self) nm = None →
              resume_key m = Ok key → ¬ resumed key →
              os_path_exists disk src = false →
              skipped None SKIPPED_MISSING msg) →
  (∀ key msg, exclusion_hit (FolderMover.exclude_patterns self) nm = None →
              resume_key m = Ok key → ¬ resumed key →
              os_path_exists disk src = true → is_dup dup_skip →
              skipped None SKIPPED_DUPLICATE msg) →
  (∀ key p self1 prim disk1 msg,
     exclusion_hit (FolderMover.exclude_patterns self) nm = None →
     resume_key m = Ok key → ¬ resumed key →
     os_path_exists disk src = true → is_dup dup_quarantine →
     FolderMover.resolve_quarantine_destination self disk cid nm
     = Ok (p, self1) →
     move_folder disk src p (FolderMover.dry_run self) = Ok (prim, disk1) →
     let status :=
       quarantine_status (mr_status prim)
         (negb (bool_decide (path_name p = nm))) in
     P (mkMoveResult cid (mr_source_path prim) (mr_dest_path prim) status msg)
       (FolderMover.count_status self1 status) disk1) →
  (∀ key msg, exclusion_hit (FolderMover.exclude_patterns self) nm = None →
              resume_key m = Ok key → ¬ resumed key →
              os_path_exists disk src = true →
              ¬ is_dup dup_skip → ¬ is_dup dup_quarantine →
              taken → FolderMover.on_dest_exists self = on_skip →
              skipped (Some (path_join (FolderMover.dest_root self) nm))
                SKIPPED_EXISTS msg) →
  (∀ key p prim disk1 msg,
     exclusion_hit (FolderMover.exclude_patterns self) nm = None →
     resume_key m = Ok key → ¬ resumed key →
     os_path_exists disk src = true →
     ¬ is_dup dup_skip → ¬ is_dup dup_quarantine →
     ¬ (taken ∧ FolderMover.on_dest_exists self = on_skip) →
     (resolve_destination disk (FolderMover.dest_root self) nm
        (FolderMover.claimed_names self)).1 = Ok p →
     move_folder disk src p (FolderMover.dry_run self) = Ok (prim, disk1) →
     let status :=
       main_status (mr_status prim) (negb (bool_decide (path_name p = nm))) in
     P (mkMoveResult cid (mr_source_path prim) (mr_dest_path prim) status msg)
       (FolderMover.count_status (FolderMover.claim self (path_name p)) status)
       disk1) →
  ∀ r self' disk',
    FolderMover.move_folder self disk m = Ok (r, self', disk') → P r self' disk'.
Proof.
  intros moved nm src cid resumed is_dup taken skipped.
  subst moved nm src cid resumed is_dup taken skipped. cbv beta.
  intros Hex Hres Hmiss Hdup Hq Hexi Hmain r self' disk'.
  unfold FolderMover.move_folder. cbv zeta.
  rewrite engine_excluded_eq.
  destruct (exclusion_hit _ _) as [p|] eqn:Ee.
  { unfold FolderMover.skip. intros [= <- <- <-]. by eapply Hex. }
  fold (resume_key m).
  destruct (resume_key m) as [key|e] eqn:Ek; unfold mbind, result_bind; [|done].
  destruct (bool_decide (key ∈ _) || bool_decide (_ ∈ _)) eqn:Er.
  { apply orb_true_iff in Er. rewrite !bool_decide_eq_true in Er.
    unfold FolderMover.skip. intros [= <- <- <-]. by eapply Hres. }
  apply orb_false_iff in Er. rewrite !bool_decide_eq_false in Er.
  assert (¬ (key ∈ FolderMover.normalized_moved_paths self ∨
             source_path m ∈ FolderMover.normalized_moved_paths self))
    as Hnr by tauto.
  destruct (os_path_exists disk (source_path m)) eqn:Eo; simpl negb; cbv iota;
    [|unfold FolderMover.skip; intros [= <- <- <-]; by eapply Hmiss].
  destruct (bool_decide (case_id m ∈ _) && bool_decide (_ = dup_skip)) eqn:Ed.
  { apply andb_true_iff in Ed. rewrite !bool_decide_eq_true in Ed.
    unfold FolderMover.skip. intros [= <- <- <-]. by eapply Hdup. }
  apply andb_false_iff in Ed. rewrite !bool_decide_eq_false in Ed.
  assert (¬ (case_id m ∈ FolderMover.duplicate_case_ids self ∧
             FolderMover.duplicates_action self = dup_skip))
    as Hnd by tauto.
  destruct (bool_decide (case_id m ∈ _) && bool_decide (_ = dup_quarantine))
    eqn:Eq.
  { apply andb_true_iff in Eq. rewrite !bool_decide_eq_true in Eq.
    unfold FolderMover.move_to_quarantine, mbind, result_bind.
    destruct (FolderMover.resolve_quarantine_destination _ _ _ _)
      as [[p self1]|e] eqn:Erq; [|done].
    destruct (move_folder disk _ p _) as [[prim disk1]|e] eqn:Em; [|done].
    replace (FolderMover.dry_run self1) with (FolderMover.dry_run self) in Em.
    2:{ revert Erq. unfold FolderMover.resolve_quarantine_destination,
          mbind, result_bind. repeat case_match; simplify_eq/=; try done.
        all: by intros [= <- <-]. }
    specialize (Hq key p self1 prim disk1).
    unfold quarantine_status in Hq.
    repeat case_match; simplify_eq/=; try done;
      intros [= <- <- <-]; by eapply Hq. }
  apply andb_false_iff in Eq. rewrite !bool_decide_eq_false in Eq.
  assert (¬ (case_id m ∈ FolderMover.duplicate_case_ids self ∧
             FolderMover.duplicates_action self = dup_quarantine))
    as Hnq by tauto.
  fold (path_exists disk
          (path_join (FolderMover.dest_root self) (folder_name m))).
  destruct ((path_exists disk _ || bool_decide (_ ∈ _)) &&
            bool_decide (_ = on_skip)) eqn:Es.
  { apply andb_true_iff in Es as [Es1 Es2].
    apply orb_true_iff in Es1. rewrite !bool_decide_eq_true in Es1, Es2.
    unfold FolderMover.skip. intros [= <- <- <-]. by eapply Hexi. }
  apply andb_false_iff in Es. rewrite orb_false_iff in Es.
  rewrite !bool_decide_eq_false in Es.
  assert (¬ ((path_exists disk
                (path_join (FolderMover.dest_root self) (folder_name m)) = true ∨
              folder_name m ∈ FolderMover.claimed_names self) ∧
             FolderMover.on_dest_exists self = on_skip)) as Hns.
  { destruct Es as [[Es1 Es2]|Es]; [|tauto].
    intros [[?|?] _]; [congruence|done]. }
  destruct (resolve_destination _ _ _ _) as [rp claimed] eqn:Erd.
  destruct rp as [p|e]; [|done].
  destruct (move_folder disk _ p _) as [[prim disk1]|e] eqn:Em; [|done].
  simpl in Em.
  specialize (Hmain key p prim disk1).
  simpl in Hmain. unfold main_status in Hmain.
  repeat case_match; simplify_eq/=; try done;
    intros [= <- <- <-]; by eapply Hmain.
Qed.


(** Closes the propositional goals left after one step of the engine has
    been split into its branches. *)
Ltac finish_step :=
  repeat split; intros; simplify_eq/=; try done;
  repeat match goal with
         | Hc : _ ∧ _ |- _ => destruct Hc
         | Hc : ∃ _, _ |- _ => destruct Hc
         | |- ¬ _ => intros ?
         | Ha : ?x = Ok _, Hb : ?x = Ok _ |- _ =>
             rewrite Ha in Hb; injection Hb as <-
         end;
  try congruence; try tauto;
  try (exfalso;
       match goal with
       | Hin : _ ∈ _ :: _ |- _ =>
           clear -Hin; set_unfold in Hin; by intuition discriminate
       end);
  try (exfalso;
       match goal with
       | Hn : ¬ (∃ _, _) |- _ =>
           apply Hn; eexists; split; [eassumption|tauto]
       end);
  try (eexists; split; [eassumption|tauto]).

(** Splits the goal by the branch a step of the engine took. *)
Ltac step_cases Hr :=
  match type of Hr with
  | FolderMover.move_folder ?self ?disk ?m = Ok (?r, ?self', ?disk') =>
      pattern r, self', disk';
      match goal with
      | |- ?P r self' disk' =>
          refine (engine_step_elim self disk m P _ _ _ _ _ _ _ r self' disk' Hr)
      end
  end.

(** The status of a branch that calls the module-level [move_folder]. *)
Lemma branch_status_cases disk src dest dry prim disk1 b :
  move_folder disk src dest dry = Ok (prim, disk1) →
  (main_status (mr_status prim) b
   ∈ [SKIPPED_MISSING; ERROR; SKIPPED_EXISTS; DRY_RUN; DRY_RUN_RENAMED;
      SUCCESS; SUCCESS_RENAMED]) ∧
  (quarantine_status (mr_status prim) b
   ∈ [SKIPPED_MISSING; ERROR; SKIPPED_EXISTS; DRY_RUN_QUARANTINE;
      DRY_RUN_QUARANTINE_RENAMED; QUARANTINED; QUARANTINED_RENAMED]).
Proof.
  intros Hm. apply move_folder_statuses in Hm as [Hst _].
  set_unfold in Hst.
  destruct Hst as [->|[->|[->|[->|[->|[]]]]]]; destruct b; vm_compute;
    split; set_solver.
Qed.

(** X3: The skip statuses of the engine are given exactly by its checks, made
    in the order exclusion, resume set, missing source, duplicate policy. *)
Theorem engine_skip_statuses self disk m r self' disk' :
  FolderMover.move_folder self disk m = Ok (r, self', disk') →
  let excl := exclusion_hit (FolderMover.exclude_patterns self) (folder_name m) in
  let resumed :=
    ∃ key, resume_key m = Ok key ∧
           (key ∈ FolderMover.normalized_moved_paths self ∨
            source_path m ∈ FolderMover.normalized_moved_paths self) in
  (mr_status r = SKIPPED_EXCLUDED ↔ excl ≠ None) ∧
  (mr_status r = SKIPPED_RESUME ↔ excl = None ∧ resumed) ∧
  (mr_status r = SKIPPED_DUPLICATE ↔
   excl = None ∧ ¬ resumed ∧ os_path_exists disk (source_path m) = true ∧
   case_id m ∈ FolderMover.duplicate_case_ids self ∧
   FolderMover.duplicates_action self = dup_skip) ∧
  (excl = None → ¬ resumed → os_path_exists disk (source_path m) = false →
   mr_status r = SKIPPED_MISSING) ∧
  (mr_status r ∈ [SKIPPED_EXCLUDED; SKIPPED_RESUME; SKIPPED_DUPLICATE] →
   disk' = disk ∧ mr_dest_path r = None ∧
   mr_source_path r = source_path m ∧
   FolderMover.claimed_names self' = FolderMover.claimed_names self ∧
   FolderMover.quarantine_claimed self' = FolderMover.quarantine_claimed self).
Proof.
  intros Hr excl resumed. subst excl resumed. revert r self' disk' Hr.
  apply engine_step_elim; cbv zeta; intros;
    try match goal with
        | Hm : move_folder _ _ _ _ = Ok _ |- _ =>
            apply (branch_status_cases _ _ _ _ _ _
                     (negb (bool_decide (path_name p = folder_name m)))) in Hm
              as [Hmain Hquar]
        end; simpl.
  5:{ clear Hmain. revert Hquar.
      generalize (quarantine_status (mr_status prim)
                    (negb (bool_decide (path_name p = folder_name m)))).
      intros st Hst. set_unfold in Hst.
      destruct Hst as [->|[->|[->|[->|[->|[->|[->|[]]]]]]]];
        finish_step. }
  6:{ clear Hquar. revert Hmain.
      generalize (main_status (mr_status prim)
                    (negb (bool_decide (path_name p = folder_name m)))).
      intros st Hst. set_unfold in Hst.
      destruct Hst as [->|[->|[->|[->|[->|[->|[->|[]]]]]]]];
        finish_step. }
  all: finish_step.
Qed.

(** The loop of [move_all] is a run of engine steps over a prefix of the
    matches. *)
Lemma move_all_loop_steps self disk matches results ops results' self' disk' :
  FolderMover.move_all_loop self disk matches results ops
  = Ok (results', self', disk') →
  ∃ new, results' = results ++ new ∧
         steps self disk (take (length new) matches) new self' disk'.
Proof.
  revert self disk results ops.
  induction matches as [|m matches IH]; intros self disk results ops; simpl.
  - intros [= <- <- <-]. exists []. rewrite app_nil_r. split; [done|constructor].
  - destruct (match FolderMover.max_moves self with
              | Some limit => bool_decide (limit ≤ ops)%Z
              | None => false
              end).
    { intros [= <- <- <-]. exists []. rewrite app_nil_r.
      split; [done|constructor]. }
    unfold mbind, result_bind.
    destruct (FolderMover.move_folder self disk m)
      as [[[r self1] disk1]|e] eqn:Hstep; [|done].
    intros Hloop. apply IH in Hloop as (new & -> & Hsteps).
    exists (r :: new). rewrite <-app_assoc. split; [done|].
    simpl. by econstructor.
Qed.

Lemma move_all_steps self disk matches results self' disk' :
  FolderMover.move_all self disk matches = Ok (results, self', disk') →
  steps self disk (take (length results) matches) results self' disk'.
Proof.
  unfold FolderMover.move_all. intros Hr.
  by apply move_all_loop_steps in Hr as (new & -> & Hsteps).
Qed.

(** One step in dry-run mode leaves the disk alone and yields no status of
    a performed move; one live step yields no dry-run status. *)
Lemma engine_step_mode self disk m r self' disk' :
  FolderMover.move_folder self disk m = Ok (r, self', disk') →
  (FolderMover.dry_run self = true →
   disk' = disk ∧ mr_status r ∉ live_statuses) ∧
  (FolderMover.dry_run self = false → mr_status r ∉ dry_statuses).
Proof.
  revert r self' disk'.
  apply engine_step_elim; cbv zeta; intros; simpl;
    try (split; intros; [split|]; [done|vm_compute; set_solver..]).
  all: match goal with
       | Hm : move_folder _ _ _ _ = Ok _ |- _ =>
           apply move_folder_statuses in Hm as (Hst & Hdry & Hlive)
       end.
  all: set_unfold in Hst.
  all: destruct (FolderMover.dry_run self);
      [destruct Hdry as [Hns ->]; [done|]|specialize (Hlive eq_refl)];
      destruct Hst as [Hs|[Hs|[Hs|[Hs|[Hs|[]]]]]]; try done; rewrite Hs;
      destruct (negb _); vm_compute; (split; intros; [split|]);
      try done; set_solver.
Qed.

Lemma steps_config self disk ms rs self' disk' :
  steps self disk ms rs self' disk' →
  FolderMover.dest_root self' = FolderMover.dest_root self ∧
  FolderMover.dry_run self' = FolderMover.dry_run self ∧
  FolderMover.exclude_patterns self' = FolderMover.exclude_patterns self ∧
  FolderMover.on_dest_exists self' = FolderMover.on_dest_exists self ∧
  FolderMover.duplicates_action self' = FolderMover.duplicates_action self ∧
  FolderMover.duplicate_case_ids self' = FolderMover.duplicate_case_ids self ∧
  FolderMover.normalized_moved_paths self'
  = FolderMover.normalized_moved_paths self.
Proof.
  induction 1 as [|self disk m r self1 disk1 ms rs self' disk' Hstep _ IH];
    [done|].
  apply engine_step_config in Hstep.
  destruct IH as (-> & -> & -> & -> & -> & -> & ->). done.
Qed.

(** X4: A dry run of a batch leaves the disk as it found it and reports no
    performed move; a live run reports no dry-run status. *)
Theorem move_all_dry_or_live self disk matches results self' disk' :
  FolderMover.move_all self disk matches = Ok (results, self', disk') →
  (FolderMover.dry_run self = true →
   disk' = disk ∧ Forall (λ r, mr_status r ∉ live_statuses) results) ∧
  (FolderMover.dry_run self = false →
   Forall (λ r, mr_status r ∉ dry_statuses) results).
Proof.
  intros Hr. apply move_all_steps in Hr.
  induction Hr as [|self disk m r self1 disk1 ms rs self' disk' Hstep _ IH];
    [by split|].
  pose proof (engine_step_config _ _ _ _ _ _ Hstep) as (_ & Hdry & _).
  apply engine_step_mode in Hstep as [Hd Hl]. rewrite Hdry in IH.
  destruct IH as [IHd IHl]. split.
  - intros Hmode. destruct (Hd Hmode) as [-> Hst].
    destruct (IHd Hmode) as [-> Hrs]. split; [done|by constructor].
  - intros Hmode. constructor; auto.
Qed.

Lemma resolve_quarantine_destination_stats self disk cid nm p self1 :
  FolderMover.resolve_quarantine_destination self disk cid nm = Ok (p, self1) →
  FolderMover.stats self1 = FolderMover.stats self.
Proof.
  unfold FolderMover.resolve_quarantine_destination, mbind, result_bind.
  repeat case_match; simplify_eq/=; try done; by intros [= <- <-].
Qed.

(** One step counts its outcome, and nothing else, under its status. *)
Lemma engine_step_stats self disk m r self' disk' s :
  FolderMover.move_folder self disk m = Ok (r, self', disk') →
  FolderMover.stats self' s
  = FolderMover.stats self s + (if decide (mr_status r = s) then 1 else 0).
Proof.
  revert r self' disk'.
  apply engine_step_elim; cbv zeta; intros; simpl;
    try match goal with
        | Hq : FolderMover.resolve_quarantine_destination _ _ _ _ = Ok _ |- _ =>
            apply resolve_quarantine_destination_stats in Hq; rewrite Hq
        end;
    repeat case_match; simplify_eq/=; try done; lia.
Qed.

Lemma count_of_cons s r rs :
  count_of s (r :: rs)
  = (if decide (mr_status r = s) then 1 else 0) + count_of s rs.
Proof.
  unfold count_of. rewrite filter_cons. by destruct (decide _).
Qed.

(** X5: The counters of the engine after a batch: each status has gained the
    number of outcomes of the batch that carry it. *)
Theorem move_all_stats self disk matches results self' disk' s :
  FolderMover.move_all self disk matches = Ok (results, self', disk') →
  FolderMover.stats self' s = FolderMover.stats self s + count_of s results.
Proof.
  intros Hr. apply move_all_steps in Hr.
  induction Hr as [|self disk m r self1 disk1 ms rs self' disk' Hstep _ IH].
  - unfold count_of. simpl. lia.
  - rewrite IH, (engine_step_stats _ _ _ _ _ _ s Hstep), count_of_cons. lia.
Qed.

(** What one step may report for a match, by the duplicates policy. *)
Lemma engine_step_policy self disk m r self' disk' :
  FolderMover.move_folder self disk m = Ok (r, self', disk') →
  let dup := case_id m ∈ FolderMover.duplicate_case_ids self in
  (dup → FolderMover.duplicates_action self = dup_skip →
   mr_status r ∈ [SKIPPED_EXCLUDED; SKIPPED_RESUME; SKIPPED_MISSING;
                  SKIPPED_DUPLICATE] ∧ disk' = disk) ∧
  (dup → FolderMover.duplicates_action self = dup_quarantine →
   mr_status r ∉ [SUCCESS; SUCCESS_RENAMED; DRY_RUN; DRY_RUN_RENAMED;
                  SKIPPED_DUPLICATE] ∧
   FolderMover.claimed_names self' = FolderMover.claimed_names self) ∧
  (¬ dup ∨ FolderMover.duplicates_action self = dup_move_all →
   mr_status r ∉ SKIPPED_DUPLICATE :: quarantine_statuses ∧
   FolderMover.quarantine_claimed self'
   = FolderMover.quarantine_claimed self).
Proof.
  intros Hr dup. subst dup. revert r self' disk' Hr.
  apply engine_step_elim; cbv zeta; intros;
    try match goal with
        | Hm : move_folder _ _ _ _ = Ok _ |- _ =>
            apply (branch_status_cases _ _ _ _ _ _
                     (negb (bool_decide (path_name p = folder_name m)))) in Hm
              as [Hmain Hquar]
        end; simpl.
  5:{ clear Hmain. revert Hquar.
      generalize (quarantine_status (mr_status prim)
                    (negb (bool_decide (path_name p = folder_name m)))).
      intros st Hst.
      assert (FolderMover.claimed_names self1 = FolderMover.claimed_names self)
        as Hcl.
      { match goal with
        | Hq : FolderMover.resolve_quarantine_destination _ _ _ _ = Ok _
          |- _ => revert Hq
        end.
        unfold FolderMover.resolve_quarantine_destination, mbind,
          result_bind. repeat case_match; simplify_eq/=; try done;
          by intros [= <- <-]. }
      set_unfold in Hst.
      destruct Hst as [->|[->|[->|[->|[->|[->|[->|[]]]]]]]];
        (split; [|split]); intros; try (exfalso; intuition congruence);
        (split; [vm_compute; set_solver|done]). }
  6:{ clear Hquar. revert Hmain.
      generalize (main_status (mr_status prim)
                    (negb (bool_decide (path_name p = folder_name m)))).
      intros st Hst. set_unfold in Hst.
      destruct Hst as [->|[->|[->|[->|[->|[->|[->|[]]]]]]]];
        (split; [|split]); intros; try (exfalso; intuition congruence);
        (split; [vm_compute; set_solver|done]). }
  all: (split; [|split]); intros; try (exfalso; intuition congruence);
    (split; [vm_compute; set_solver|done]).
Qed.

(** A property of single steps that holds while an invariant of the engine
    does holds of every step of a run. *)
Lemma steps_lift (I : FolderMover.t → Prop)
    (Q : FolderMatch → MoveResult → Prop) :
  (∀ self disk m r self' disk',
     I self → FolderMover.move_folder self disk m = Ok (r, self', disk') →
     I self' ∧ Q m r) →
  ∀ self disk ms rs self' disk',
    steps self disk ms rs self' disk' → I self → Forall2 Q ms rs ∧ I self'.
Proof.
  intros Hstep self disk ms rs self' disk' Hrun.
  induction Hrun as [|self disk m r self1 disk1 ms rs self' disk' Hs _ IH];
    intros HI; [by split|].
  destruct (Hstep _ _ _ _ _ _ HI Hs) as [HI1 HQ].
  destruct (IH HI1) as [Hrs HI']. split; [by constructor|done].
Qed.

(** X6: The duplicates policy is obeyed throughout a batch: under the skip
    policy a duplicate is only ever skipped; under the quarantine policy it
    is never moved into the main destination; and a match that is not
    treated as a duplicate is never quarantined. *)
Theorem move_all_duplicates_policy self disk matches results self' disk' :
  FolderMover.move_all self disk matches = Ok (results, self', disk') →
  Forall2 (λ m r,
    let dup := case_id m ∈ FolderMover.duplicate_case_ids self in
    (dup → FolderMover.duplicates_action self = dup_skip →
     mr_status r ∈ [SKIPPED_EXCLUDED; SKIPPED_RESUME; SKIPPED_MISSING;
                    SKIPPED_DUPLICATE]) ∧
    (dup → FolderMover.duplicates_action self = dup_quarantine →
     mr_status r ∉ [SUCCESS; SUCCESS_RENAMED; DRY_RUN; DRY_RUN_RENAMED;
                    SKIPPED_DUPLICATE]) ∧
    (¬ dup ∨ FolderMover.duplicates_action self = dup_move_all →
     mr_status r ∉ SKIPPED_DUPLICATE :: quarantine_statuses))
    (take (length results) matches) results.
Proof.
  intros Hr. apply move_all_steps in Hr.
  eapply (steps_lift
            (λ s, FolderMover.duplicate_case_ids s
                  = FolderMover.duplicate_case_ids self ∧
                  FolderMover.duplicates_action s
                  = FolderMover.duplicates_action self)) in Hr as [Hall _];
    [exact Hall| |done].
  intros s d m r s' d' [Hd Ha] Hstep.
  pose proof (engine_step_config _ _ _ _ _ _ Hstep)
    as (_ & _ & _ & _ & Ha' & Hd' & _).
  split; [split; congruence|].
  apply engine_step_policy in Hstep. cbv zeta in Hstep.
  rewrite Hd, Ha in Hstep. destruct Hstep as (H1 & H2 & H3).
  cbv zeta. repeat split; intros.
  - by apply H1.
  - by apply H2.
  - by apply H3.
Qed.

(** The resume set as [init] stores it: for each path, what the resume
    check of [move_folder] will look up. *)
Lemma normalize_moved_spec paths moved m :
  FolderMover.normalize_moved paths = Ok moved →
  source_path m ∈ paths →
  ∃ key, resume_key m = Ok key ∧ key ∈ moved.
Proof.
  unfold FolderMover.normalize_moved, resume_key.
  intros Hn Hin. apply elem_of_elements in Hin.
  revert moved Hn Hin. generalize (source_path m). intros src.
  induction (elements paths) as [|p l IH]; intros moved Hn Hin;
    [by apply elem_of_nil in Hin|].
  simpl in Hn. unfold mbind, result_bind in Hn.
  destruct (foldr _ _ l) as [acc|e] eqn:Hacc; [|done].
  apply elem_of_cons in Hin as [->|Hin].
  - repeat case_match; simplify_eq/=; try done; eexists; split; eauto;
      set_solver.
  - destruct (IH acc eq_refl Hin) as (key & Hk & Hkin).
    exists key. split; [done|].
    repeat case_match; simplify_eq/=; try done; set_solver.
Qed.

(** X7: Resume: a batch run by an engine that [__init__] built with a resume
    set never moves a source path of that set; its outcome is an exclusion
    or a resume skip. *)
Theorem resumed_sources_are_skipped dest_root dry limit patterns on_exists
    already action dups self disk matches results self' disk' :
  FolderMover.init dest_root dry limit patterns on_exists already action dups
  = Ok self →
  FolderMover.move_all self disk matches = Ok (results, self', disk') →
  Forall2 (λ m r,
    source_path m ∈ already →
    mr_status r ∈ [SKIPPED_EXCLUDED; SKIPPED_RESUME] ∧
    mr_dest_path r = None)
    (take (length results) matches) results.
Proof.
  unfold FolderMover.init, mbind, result_bind.
  destruct (FolderMover.normalize_moved already) as [moved|e] eqn:Hn; [|done].
  intros [= <-] Hr. apply move_all_steps in Hr.
  eapply (steps_lift
            (λ s, FolderMover.normalized_moved_paths s = moved)) in Hr
    as [Hall _]; [exact Hall| |done].
  intros s d m r s' d' Hm Hstep.
  pose proof (engine_step_config _ _ _ _ _ _ Hstep)
    as (_ & _ & _ & _ & _ & _ & Hm').
  split; [congruence|]. intros Hin.
  destruct (normalize_moved_spec _ _ _ Hn Hin) as (key & Hk & Hkin).
  clear Hm' Hr Hn. subst moved. revert r s' d' Hstep.
  apply engine_step_elim; cbv zeta; intros; simpl;
    first [ split; [by repeat constructor|done]
          | exfalso;
            match goal with
            | Ha : resume_key m = Ok ?k |- _ =>
                rewrite Hk in Ha; injection Ha as <-
            end; tauto ].
Qed.

Lemma string_app_length (a b : string) :
  String.length (a +:+ b) = String.length a + String.length b.
Proof. induction a as [|c a IH]; simpl; [done|by rewrite IH]. Qed.

(** A suffixed name is never the name itself. *)
Lemma candidate_eq nm k : candidate nm k = nm ↔ k = 0.
Proof.
  split; [|by intros ->]. destruct k as [|k]; [done|]. simpl.
  unfold suffixed. intros Heq. apply (f_equal String.length) in Heq.
  rewrite !string_app_length in Heq. simpl in Heq. lia.
Qed.

(** The destination the module-level [move_folder] reports for a move. *)
Lemma move_folder_dest disk src dest dry prim disk1 :
  move_folder disk src dest dry = Ok (prim, disk1) →
  mr_status prim ∈ [SUCCESS; DRY_RUN] →
  ∃ d, normalize_path dest = Ok d ∧ mr_dest_path prim = Some d.
Proof.
  unfold move_folder, mbind, result_bind. intros Hr Hst.
  repeat (case_match; simplify_eq/=; try done); eauto;
    exfalso; clear -Hst; set_unfold in Hst; intuition discriminate.
Qed.

Lemma main_status_moves st b :
  st ∈ [SKIPPED_MISSING; ERROR; SKIPPED_EXISTS; DRY_RUN; SUCCESS] →
  main_status st b ∈ MAIN_MOVES →
  st ∈ [SUCCESS; DRY_RUN] ∧
  (main_status st b ∈ [SUCCESS_RENAMED; DRY_RUN_RENAMED] ↔ b = true).
Proof.
  intros Hst. set_unfold in Hst.
  destruct Hst as [->|[->|[->|[->|[->|[]]]]]]; destruct b; vm_compute;
    intros Hin; (split; [|split; intros Hb]); try done;
    first [ by repeat constructor
          | exfalso; set_unfold in Hin; intuition discriminate
          | exfalso; set_unfold in Hb; intuition discriminate ].
Qed.

Lemma quarantine_status_not_main st b :
  st ∈ [SKIPPED_MISSING; ERROR; SKIPPED_EXISTS; DRY_RUN; SUCCESS] →
  quarantine_status st b ∉ MAIN_MOVES.
Proof.
  intros Hst. set_unfold in Hst.
  destruct Hst as [->|[->|[->|[->|[->|[]]]]]]; destruct b; vm_compute;
    intros Hin; set_unfold in Hin; intuition discriminate.
Qed.

Lemma resolve_quarantine_destination_claimed self disk cid nm p self1 :
  FolderMover.resolve_quarantine_destination self disk cid nm = Ok (p, self1) →
  FolderMover.claimed_names self1 = FolderMover.claimed_names self.
Proof.
  unfold FolderMover.resolve_quarantine_destination, mbind, result_bind.
  repeat case_match; simplify_eq/=; try done; by intros [= <- <-].
Qed.

(** A move into the main destination goes to the first free candidate of
    the folder's name, claims it, and is labelled as renamed exactly when
    that candidate is not the name itself. *)
Lemma engine_step_main self disk m r self' disk' root :
  normalize_path (FolderMover.dest_root self) = Ok root →
  (∀ k, k ≤ ATTEMPTS →
        path_name (path_join root (candidate (folder_name m) k))
        = candidate (folder_name m) k) →
  FolderMover.move_folder self disk m = Ok (r, self', disk') →
  mr_status r ∈ MAIN_MOVES →
  ∃ k d, k ≤ ATTEMPTS ∧
    is_free disk root (FolderMover.claimed_names self)
      (candidate (folder_name m) k) = true ∧
    (∀ j, j < k → is_free disk root (FolderMover.claimed_names self)
                    (candidate (folder_name m) j) = false) ∧
    normalize_path (path_join root (candidate (folder_name m) k)) = Ok d ∧
    mr_dest_path r = Some d ∧
    FolderMover.claimed_names self'
    = {[candidate (folder_name m) k]} ∪ FolderMover.claimed_names self ∧
    (mr_status r ∈ [SUCCESS_RENAMED; DRY_RUN_RENAMED] ↔ k ≠ 0) ∧
    ¬ ((path_exists disk
          (path_join (FolderMover.dest_root self) (folder_name m)) = true ∨
        folder_name m ∈ FolderMover.claimed_names self) ∧
       FolderMover.on_dest_exists self = on_skip).
Proof.
  intros Hroot Hbase Hr. step_cases Hr; cbv beta zeta; intros; simpl in *;
    try (exfalso;
         match goal with
         | Hin : _ ∈ MAIN_MOVES |- _ =>
             clear -Hin; vm_compute in Hin; set_unfold in Hin;
             by intuition discriminate
         end).
  - exfalso.
    match goal with
    | Hm : move_folder _ _ _ _ = Ok _, Hin : _ ∈ MAIN_MOVES |- _ =>
        apply move_folder_statuses in Hm as [Hst _];
        by apply (quarantine_status_not_main _ _ Hst) in Hin
    end.
  - match goal with
    | Hres : (resolve_destination _ _ _ _).1 = Ok _ |- _ =>
        eapply resolve_destination_ok in Hres
          as (k & Hk & Hp & Hfree & Hlow); [|done]
    end.
    subst p.
    match goal with
    | Hm : move_folder _ _ _ _ = Ok _, Hin : _ ∈ MAIN_MOVES |- _ =>
        pose proof (move_folder_statuses _ _ _ _ _ _ Hm) as [Hst _];
        destruct (main_status_moves _ _ Hst Hin) as [Hprim Hren];
        destruct (move_folder_dest _ _ _ _ _ _ Hm Hprim) as (d & Hd & Hdest)
    end.
    exists k, d. rewrite Hbase in * by done.
    repeat split; try done.
    + intros Hin2. apply Hren in Hin2. apply negb_true_iff in Hin2.
      apply bool_decide_eq_false_1 in Hin2. by rewrite candidate_eq in Hin2.
    + intros Hk0. apply Hren. apply negb_true_iff, bool_decide_eq_false_2.
      by rewrite candidate_eq.
Qed.

(** X8: A move into the main destination is labelled as renamed exactly when
    the folder's own name was taken, on the disk or by an earlier claim. *)
Theorem renamed_iff_name_taken self disk m r self' disk' root :
  normalize_path (FolderMover.dest_root self) = Ok root →
  (∀ k, k ≤ ATTEMPTS →
        path_name (path_join root (candidate (folder_name m) k))
        = candidate (folder_name m) k) →
  FolderMover.move_folder self disk m = Ok (r, self', disk') →
  mr_status r ∈ MAIN_MOVES →
  (mr_status r ∈ [SUCCESS_RENAMED; DRY_RUN_RENAMED] ↔
   is_free disk root (FolderMover.claimed_names self) (folder_name m) = false) ∧
  (mr_status r ∈ [SUCCESS; DRY_RUN] ↔
   is_free disk root (FolderMover.claimed_names self) (folder_name m) = true).
Proof.
  intros Hroot Hbase Hr Hin.
  destruct (engine_step_main _ _ _ _ _ _ _ Hroot Hbase Hr Hin)
    as (k & d & Hk & Hfree & Hlow & _ & _ & _ & Hren & _).
  assert (is_free disk root (FolderMover.claimed_names self) (folder_name m)
          = false ↔ k ≠ 0) as Hk0.
  { destruct k as [|k]; simpl in *.
    - rewrite Hfree. split; [done|lia].
    - pose proof (Hlow 0 ltac:(lia)) as H0. simpl in H0. by rewrite H0. }
  split; [by rewrite Hk0|].
  rewrite <-not_false_iff_true, Hk0, <-Hren.
  clear -Hin. unfold MAIN_MOVES in Hin. set_unfold in Hin. set_unfold.
  destruct Hin as [->|[->|[->|[->|[]]]]]; intuition discriminate.
Qed.

(** A step never forgets a claimed name. *)
Lemma engine_step_claimed_mono self disk m r self' disk' :
  FolderMover.move_folder self disk m = Ok (r, self', disk') →
  FolderMover.claimed_names self ⊆ FolderMover.claimed_names self'.
Proof.
  intros Hr. step_cases Hr; cbv beta zeta; intros; simpl; try done.
  - match goal with
    | Hq : FolderMover.resolve_quarantine_destination _ _ _ _ = Ok _ |- _ =>
        apply resolve_quarantine_destination_claimed in Hq; by rewrite Hq
    end.
  - apply union_subseteq_r.
Qed.

(** The destinations of the moves of a run into the main destination:
    their names are claimed during the run, none before it, and no two
    of them are the same. *)
Lemma steps_main_destinations self disk ms rs self' disk' root :
  normalize_path (FolderMover.dest_root self) = Ok root →
  Forall (λ m, ∀ k, k ≤ ATTEMPTS →
                 path_name (path_join root (candidate (folder_name m) k))
                 = candidate (folder_name m) k) ms →
  (∀ p d, normalize_path p = Ok d → path_name d = path_name p) →
  steps self disk ms rs self' disk' →
  FolderMover.claimed_names self ⊆ FolderMover.claimed_names self' ∧
  NoDup (main_destinations rs) ∧
  ∀ d, d ∈ main_destinations rs →
       path_name d ∈ FolderMover.claimed_names self' ∧
       path_name d ∉ FolderMover.claimed_names self.
Proof.
  intros Hroot Hbase Hnorm Hrun. revert Hroot Hbase.
  induction Hrun as [|self disk m r self1 disk1 ms rs self' disk' Hs _ IH];
    intros Hroot Hbase.
  { split; [done|]. split; [constructor|]. intros d Hd.
    by apply elem_of_nil in Hd. }
  apply Forall_cons in Hbase as [Hbm Hbase].
  pose proof (engine_step_config _ _ _ _ _ _ Hs) as (Hdr & _).
  rewrite <-Hdr in Hroot.
  destruct (IH Hroot Hbase) as (Hsub & Hnd & Hnames). rewrite Hdr in Hroot.
  pose proof (engine_step_claimed_mono _ _ _ _ _ _ Hs) as Hmono.
  destruct (decide (mr_status r ∈ MAIN_MOVES)) as [Hin|Hnin].
  - destruct (engine_step_main _ _ _ _ _ _ _ Hroot Hbm Hs Hin)
      as (k & d & Hk & Hfree & _ & Hd & Hdest & Hcl & _ & _).
    apply Hnorm in Hd. rewrite Hbm in Hd by done.
    apply is_free_true in Hfree as [_ Hfresh].
    assert (main_destinations (r :: rs) = d :: main_destinations rs) as ->.
    { unfold main_destinations. simpl.
      by rewrite bool_decide_eq_true_2, Hdest. }
    split; [set_solver|]. split.
    + constructor; [|done]. intros Hdin. apply Hnames in Hdin as [_ Hdin].
      apply Hdin. rewrite Hcl, Hd. set_solver.
    + intros d' [->|Hd']%elem_of_cons.
      * rewrite Hd. split; [|done]. apply Hsub. rewrite Hcl. set_solver.
      * apply Hnames in Hd' as [? ?]. split; [done|]. set_solver.
  - assert (main_destinations (r :: rs) = main_destinations rs) as ->.
    { unfold main_destinations. simpl. by rewrite bool_decide_eq_false_2. }
    split; [set_solver|]. split; [done|].
    intros d Hd. apply Hnames in Hd as [? ?]. split; [done|]. set_solver.
Qed.

(** X9: Within one batch no two moves into the main destination, performed or
    simulated, go to the same path. *)
Theorem main_destinations_distinct self disk matches results self' disk' root :
  normalize_path (FolderMover.dest_root self) = Ok root →
  Forall (λ m, ∀ k, k ≤ ATTEMPTS →
                 path_name (path_join root (candidate (folder_name m) k))
                 = candidate (folder_name m) k) matches →
  (∀ p d, normalize_path p = Ok d → path_name d = path_name p) →
  FolderMover.move_all self disk matches = Ok (results, self', disk') →
  NoDup (main_destinations results).
Proof.
  intros Hroot Hbase Hnorm Hr. apply move_all_steps in Hr.
  eapply steps_main_destinations in Hr as (_ & Hnd & _); try done.
  by apply Forall_take.
Qed.

(** X10: Under the skip policy for existing destinations, with a destination
    root that is its own normal form, nothing is renamed: a folder moves
    into the main destination under its own name or not at all. *)
Theorem skip_policy_never_renames self disk m r self' disk' :
  FolderMover.on_dest_exists self = on_skip →
  normalize_path (FolderMover.dest_root self) = Ok (FolderMover.dest_root self) →
  (∀ k, k ≤ ATTEMPTS →
        path_name (path_join (FolderMover.dest_root self)
                     (candidate (folder_name m) k))
        = candidate (folder_name m) k) →
  FolderMover.move_folder self disk m = Ok (r, self', disk') →
  mr_status r ∉ [SUCCESS_RENAMED; DRY_RUN_RENAMED] ∧
  (mr_status r ∈ [SUCCESS; DRY_RUN] →
   ∃ d, normalize_path (path_join (FolderMover.dest_root self) (folder_name m))
        = Ok d ∧ mr_dest_path r = Some d).
Proof.
  intros Hskip Hroot Hbase Hr.
  assert (mr_status r ∈ MAIN_MOVES →
          ∃ d, normalize_path
                 (path_join (FolderMover.dest_root self) (folder_name m))
               = Ok d ∧ mr_dest_path r = Some d ∧
               mr_status r ∉ [SUCCESS_RENAMED; DRY_RUN_RENAMED]) as Hmain.
  { intros Hin.
    destruct (engine_step_main _ _ _ _ _ _ _ Hroot Hbase Hr Hin)
      as (k & d & Hk & Hfree & Hlow & Hd & Hdest & _ & Hren & Hnot).
    destruct k as [|k].
    - exists d. repeat split; [done..|]. rewrite Hren. lia.
    - exfalso. pose proof (Hlow 0 ltac:(lia)) as H0. simpl in H0.
      apply Hnot. split; [|done]. unfold is_free in H0.
      apply andb_false_iff in H0 as [H0|H0].
      + left. by apply negb_false_iff in H0.
      + right. apply negb_false_iff in H0.
        by apply bool_decide_eq_true_1 in H0. }
  split.
  - intros Hin. destruct Hmain as (d & _ & _ & Hnot); [|done].
    clear -Hin. unfold MAIN_MOVES. set_unfold in Hin. set_unfold. tauto.
  - intros Hin. destruct Hmain as (d & Hd & Hdest & _); [|by exists d].
    clear -Hin. unfold MAIN_MOVES. set_unfold in Hin. set_unfold. tauto.
Qed.

(** [_resolve_quarantine_destination] resolves against the names claimed
    under the identifier so far, and claims the name it returns there. *)
Lemma resolve_quarantine_destination_inv self disk cid nm p self1 :
  FolderMover.resolve_quarantine_destination self disk cid nm = Ok (p, self1) →
  let before := default ∅ (FolderMover.quarantine_claimed self !! cid) in
  (resolve_destination disk
     (path_join (path_join (FolderMover.dest_root self) DUPLICATES_FOLDER) cid)
     nm before).1 = Ok p ∧
  FolderMover.quarantine_claimed self1
  = <[cid := {[path_name p]} ∪ before]> (FolderMover.quarantine_claimed self).
Proof.
  unfold FolderMover.resolve_quarantine_destination, mbind, result_bind.
  case_bool_decide as Hdom.
  - apply elem_of_dom in Hdom as [c Hc]. rewrite Hc. simpl.
    destruct (resolve_destination _ _ _ c) as [rp c'] eqn:Hres.
    pose proof (resolve_destination_snd disk
      (path_join (path_join (FolderMover.dest_root self) DUPLICATES_FOLDER) cid)
      nm c) as Hsnd.
    rewrite Hres in Hsnd. simpl in Hsnd. subst c'.
    destruct rp as [q|e]; [|done]. by intros [= <- <-].
  - apply not_elem_of_dom in Hdom. rewrite lookup_insert_eq, Hdom. simpl.
    destruct (resolve_destination _ _ _ ∅) as [rp c'] eqn:Hres.
    pose proof (resolve_destination_snd disk
      (path_join (path_join (FolderMover.dest_root self) DUPLICATES_FOLDER) cid)
      nm ∅) as Hsnd.
    rewrite Hres in Hsnd. simpl in Hsnd. subst c'.
    destruct rp as [q|e]; [|done]. intros [= <- <-]. simpl.
    by rewrite insert_insert_eq.
Qed.

Lemma quarantine_status_moves st b :
  st ∈ [SKIPPED_MISSING; ERROR; SKIPPED_EXISTS; DRY_RUN; SUCCESS] →
  quarantine_status st b ∈ quarantine_statuses →
  st ∈ [SUCCESS; DRY_RUN] ∧
  (quarantine_status st b ∈ [QUARANTINED_RENAMED; DRY_RUN_QUARANTINE_RENAMED]
   ↔ b = true).
Proof.
  intros Hst. set_unfold in Hst.
  destruct Hst as [->|[->|[->|[->|[->|[]]]]]]; destruct b; vm_compute;
    intros Hin; (split; [|split; intros Hb]); try done;
    first [ by repeat constructor
          | exfalso; set_unfold in Hin; intuition discriminate
          | exfalso; set_unfold in Hb; intuition discriminate ].
Qed.

Lemma main_status_not_quarantine st b :
  st ∈ [SKIPPED_MISSING; ERROR; SKIPPED_EXISTS; DRY_RUN; SUCCESS] →
  main_status st b ∉ quarantine_statuses.
Proof.
  intros Hst. set_unfold in Hst.
  destruct Hst as [->|[->|[->|[->|[->|[]]]]]]; destruct b; vm_compute;
    intros Hin; set_unfold in Hin; intuition discriminate.
Qed.

(** X11: A quarantined folder, moved or simulated, belongs to a duplicate
    identifier under the quarantine policy and lands in the folder
    [_DUPLICATES/<identifier>] of the destination root, under the first
    candidate of its name that is free there and not yet claimed for that
    identifier; the name is claimed for that identifier only, and the
    claims of the main destination are left alone. *)
Theorem quarantine_destination self disk m r self' disk' :
  FolderMover.move_folder self disk m = Ok (r, self', disk') →
  mr_status r ∈ quarantine_statuses →
  let before :=
    default ∅ (FolderMover.quarantine_claimed self !! case_id m) in
  case_id m ∈ FolderMover.duplicate_case_ids self ∧
  FolderMover.duplicates_action self = dup_quarantine ∧
  FolderMover.claimed_names self' = FolderMover.claimed_names self ∧
  ∃ qroot k d,
    normalize_path
      (path_join (path_join (FolderMover.dest_root self) DUPLICATES_FOLDER)
         (case_id m)) = Ok qroot ∧
    k ≤ ATTEMPTS ∧
    is_free disk qroot before (candidate (folder_name m) k) = true ∧
    (∀ j, j < k →
          is_free disk qroot before (candidate (folder_name m) j) = false) ∧
    normalize_path (path_join qroot (candidate (folder_name m) k)) = Ok d ∧
    mr_dest_path r = Some d ∧
    FolderMover.quarantine_claimed self'
    = <[case_id m :=
          {[path_name (path_join qroot (candidate (folder_name m) k))]}
          ∪ before]> (FolderMover.quarantine_claimed self).
Proof.
  intros Hr Hin before. subst before. revert Hin.
  step_cases Hr; cbv beta zeta; intros; simpl in *;
    try (exfalso;
         match goal with
         | Hin : _ ∈ quarantine_statuses |- _ =>
             clear -Hin; vm_compute in Hin; set_unfold in Hin;
             by intuition discriminate
         end).
  - match goal with
    | Hq : FolderMover.resolve_quarantine_destination _ _ _ _ = Ok _ |- _ =>
        pose proof (resolve_quarantine_destination_claimed _ _ _ _ _ _ Hq)
          as Hcl;
        apply resolve_quarantine_destination_inv in Hq as [Hres Hqc]
    end.
    cbv zeta in Hres, Hqc.
    destruct (normalize_path
                (path_join (path_join (FolderMover.dest_root self)
                              DUPLICATES_FOLDER) (case_id m)))
      as [qroot|e] eqn:Hroot.
    2:{ unfold resolve_destination in Hres. by rewrite Hroot in Hres. }
    eapply resolve_destination_ok in Hres
      as (k & Hk & Hp & Hfree & Hlow); [|done].
    subst p.
    match goal with
    | Hm : move_folder _ _ _ _ = Ok _, Hin : _ ∈ quarantine_statuses |- _ =>
        pose proof (move_folder_statuses _ _ _ _ _ _ Hm) as [Hst _];
        destruct (quarantine_status_moves _ _ Hst Hin) as [Hprim _];
        destruct (move_folder_dest _ _ _ _ _ _ Hm Hprim) as (d & Hd & Hdest)
    end.
    repeat split; try tauto; try done.
    exists qroot, k, d. done.
  - exfalso.
    match goal with
    | Hm : move_folder _ _ _ _ = Ok _, Hin : _ ∈ quarantine_statuses |- _ =>
        apply move_folder_statuses in Hm as [Hst _];
        by apply (main_status_not_quarantine _ _ Hst) in Hin
    end.
Qed.

End engine_extras.

(** ** Further runs on the concrete environment *)

Module EngineRuns.
Import Sim Examples EngineExamples.

(** In the concrete environment the candidates of the example folder are
    their own basenames under the destination. *)
Lemma basename_C_1_2 k :
  k ≤ ATTEMPTS →
  path_name (path_join "/dst" (candidate "C_1_2" k)) = candidate "C_1_2" k.
Proof.
  assert (bool_decide (Forall (λ k, basename (join "/dst" (candidate "C_1_2" k))
                                    = candidate "C_1_2" k)
                         (seq 0 (S ATTEMPTS))) = true) as Hall
    by (vm_compute; reflexivity).
  intros Hk. apply bool_decide_eq_true_1 in Hall.
  rewrite Forall_forall in Hall. apply Hall, elem_of_seq. lia.
Qed.

(** Witness of X2: a live move of a folder that exists to a free destination. *)
Lemma move_folder_checks_witness :
  match plain_move with
  | Ok (r, disk') =>
      mr_status r = SUCCESS ∧ mr_dest_path r = Some "/dst/a" ∧
      mr_status r ∈ [SKIPPED_MISSING; ERROR; SKIPPED_EXISTS; DRY_RUN; SUCCESS]
  | Raise _ => False
  end.
Proof.
  destruct plain_move as [[r disk']|e] eqn:Hrun;
    [|vm_compute in Hrun; discriminate].
  destruct (move_folder_checks (H:=env) ["/src/a"; "/dst"] "/src/a" "/dst/a"
              false "/src/a" "/dst/a" r disk' eq_refl eq_refl Hrun)
    as (_ & _ & Hst & _ & _ & Hdir & _).
  destruct Hdir as (_ & _ & Hdest); [reflexivity..|].
  split; [|by split].
  vm_compute in Hrun. by injection Hrun as <- <-.
Defined.

(** Witness of X3: a folder hit by a glob pattern is excluded and nothing is touched. *)
Lemma engine_skip_statuses_witness :
  match excluded_step with
  | Ok (r, self', disk') =>
      mr_status r = SKIPPED_EXCLUDED ∧ disk' = disk0 ∧ mr_dest_path r = None
  | Raise _ => False
  end.
Proof.
  destruct excluded_step as [[[r self'] disk']|e] eqn:Hrun;
    [|vm_compute in Hrun; discriminate].
  destruct (engine_skip_statuses (H:=env) _ _ _ _ _ _ Hrun)
    as (Hex & _ & _ & _ & Hframe).
  assert (mr_status r = SKIPPED_EXCLUDED) as Hst.
  { apply Hex. vm_compute. discriminate. }
  destruct Hframe as (-> & -> & _); [rewrite Hst; by repeat constructor|].
  done.
Defined.

(** Witness of X4: the dry run of the two matches of one folder. *)
Lemma move_all_dry_or_live_witness :
  match dry_batch with
  | Ok (results, _, disk') =>
      disk' = disk0 ∧ Forall (λ r, mr_status r ∉ live_statuses) results
  | Raise _ => False
  end.
Proof.
  destruct dry_batch as [[[results self'] disk']|e] eqn:Hrun;
    [|vm_compute in Hrun; discriminate].
  exact (proj1 (move_all_dry_or_live (H:=env) _ _ _ _ _ _ Hrun) eq_refl).
Defined.

(** Witness of X5: the counter of DRY_RUN after that dry run. *)
Lemma move_all_stats_witness :
  match dry_batch with
  | Ok (results, self', _) =>
      FolderMover.stats self' DRY_RUN = 0 + count_of DRY_RUN results
  | Raise _ => False
  end.
Proof.
  destruct dry_batch as [[[results self'] disk']|e] eqn:Hrun;
    [|vm_compute in Hrun; discriminate].
  exact (move_all_stats (H:=env) _ _ _ _ _ _ DRY_RUN Hrun).
Defined.

Example dry_batch_statuses :
  statuses dry_batch
  = Some [(DRY_RUN, Some "/dst/C_1_2"); (DRY_RUN_RENAMED, Some "/dst/C_1_2_1")].
Proof. vm_compute. reflexivity. Qed.

Example quarantine_batch_statuses :
  statuses quarantine_batch
  = Some [(DRY_RUN_QUARANTINE, Some "/dst/_DUPLICATES/1/C_1_2");
          (DRY_RUN_QUARANTINE, Some "/dst/_DUPLICATES/2/C_1_2")].
Proof. vm_compute. reflexivity. Qed.

(** Witness of X6: the batch under the quarantine policy. *)
Lemma move_all_duplicates_policy_witness :
  match quarantine_batch with
  | Ok (results, _, _) =>
      Forall2 (λ m r,
        let dup := case_id m ∈ ({["1"; "2"]} : gset string) in
        (dup → dup_quarantine = dup_skip →
         mr_status r ∈ [SKIPPED_EXCLUDED; SKIPPED_RESUME; SKIPPED_MISSING;
                        SKIPPED_DUPLICATE]) ∧
        (dup → dup_quarantine = dup_quarantine →
         mr_status r ∉ [SUCCESS; SUCCESS_RENAMED; DRY_RUN; DRY_RUN_RENAMED;
                        SKIPPED_DUPLICATE]) ∧
        (¬ dup ∨ dup_quarantine = dup_move_all →
         mr_status r ∉ SKIPPED_DUPLICATE :: quarantine_statuses))
        (take (length results) twice) results
  | Raise _ => False
  end.
Proof.
  destruct quarantine_batch as [[[results self'] disk']|e] eqn:Hrun;
    [|vm_compute in Hrun; discriminate].
  exact (move_all_duplicates_policy (H:=env) _ _ _ _ _ _ Hrun).
Defined.

(** Witness of X7: the folder is in the resume set of the engine. *)
Lemma resumed_sources_are_skipped_witness :
  match resumed_engine with
  | Ok self =>
      match FolderMover.move_all (H:=env) self disk0 twice with
      | Ok (results, _, _) =>
          Forall2 (λ m r,
            source_path m ∈ ({["/src/C_1_2"]} : gset string) →
            mr_status r ∈ [SKIPPED_EXCLUDED; SKIPPED_RESUME] ∧
            mr_dest_path r = None)
            (take (length results) twice) results
      | Raise _ => False
      end
  | Raise _ => False
  end.
Proof.
  destruct resumed_engine as [self|e] eqn:Hinit;
    [|vm_compute in Hinit; discriminate].
  destruct (FolderMover.move_all (H:=env) self disk0 twice)
    as [[[results self'] disk']|e] eqn:Hrun.
  - exact (resumed_sources_are_skipped (H:=env) _ _ _ _ _ _ _ _ _ _ _ _ _ _
             Hinit Hrun).
  - vm_compute in Hinit. injection Hinit as <-. vm_compute in Hrun.
    discriminate.
Defined.

Example resumed_batch_statuses :
  match resumed_engine with
  | Ok self =>
      statuses (FolderMover.move_all (H:=env) self disk0 twice)
      = Some [(SKIPPED_RESUME, None); (SKIPPED_RESUME, None)]
  | Raise _ => False
  end.
Proof. vm_compute. reflexivity. Qed.

(** Witness of X8: the folder's name exists in the destination. *)
Lemma renamed_iff_name_taken_witness :
  match renamed_step with
  | Ok (r, _, _) =>
      mr_status r = SUCCESS_RENAMED ∧
      (mr_status r ∈ [SUCCESS_RENAMED; DRY_RUN_RENAMED] ↔
       is_free disk1 "/dst" ∅ "C_1_2" = false)
  | Raise _ => False
  end.
Proof.
  destruct renamed_step as [[[r self'] disk']|e] eqn:Hrun;
    [|vm_compute in Hrun; discriminate].
  assert (mr_status r = SUCCESS_RENAMED) as Hst.
  { vm_compute in Hrun. by injection Hrun as <- _ _. }
  split; [done|].
  refine (proj1 (renamed_iff_name_taken (H:=env)
                   (engine false None [] ∅ dup_move_all ∅) disk1 first_match
                   r self' disk' "/dst"
                   eq_refl basename_C_1_2 Hrun _)).
  rewrite Hst. by repeat constructor.
Defined.

(** Witness of X9: the dry run sends the two matches to two paths. *)
Lemma main_destinations_distinct_witness :
  match dry_batch with
  | Ok (results, _, _) =>
      main_destinations results = ["/dst/C_1_2"; "/dst/C_1_2_1"] ∧
      NoDup (main_destinations results)
  | Raise _ => False
  end.
Proof.
  destruct dry_batch as [[[results self'] disk']|e] eqn:Hrun;
    [|vm_compute in Hrun; discriminate].
  split; [vm_compute in Hrun; by injection Hrun as <- _ _|].
  refine (main_destinations_distinct (H:=env)
            (engine true None [] ∅ dup_move_all ∅) disk0 twice
            results self' disk' "/dst" eq_refl _ _ Hrun).
  - repeat constructor; apply basename_C_1_2.
  - by intros p d [= ->].
Defined.

(** Witness of X10: the taken name is skipped, not renamed. *)
Lemma skip_policy_never_renames_witness :
  match skipped_step with
  | Ok (r, _, _) =>
      mr_status r = SKIPPED_EXISTS ∧
      mr_status r ∉ [SUCCESS_RENAMED; DRY_RUN_RENAMED]
  | Raise _ => False
  end.
Proof.
  destruct skipped_step as [[[r self'] disk']|e] eqn:Hrun;
    [|vm_compute in Hrun; discriminate].
  split; [vm_compute in Hrun; by injection Hrun as <- _ _|].
  refine (proj1 (skip_policy_never_renames (H:=env) skipping disk1
                   first_match r self' disk'
                   eq_refl eq_refl basename_C_1_2 Hrun)).
Defined.

(** Witness of X11: the duplicate goes under its identifier's quarantine folder. *)
Lemma quarantine_destination_witness :
  match quarantine_step with
  | Ok (r, self', _) =>
      mr_status r = QUARANTINED ∧
      mr_dest_path r = Some "/dst/_DUPLICATES/1/C_1_2" ∧
      FolderMover.claimed_names self' = ∅
  | Raise _ => False
  end.
Proof.
  destruct quarantine_step as [[[r self'] disk']|e] eqn:Hrun;
    [|vm_compute in Hrun; discriminate].
  assert (mr_status r = QUARANTINED ∧
          mr_dest_path r = Some "/dst/_DUPLICATES/1/C_1_2") as [Hst Hdest].
  { vm_compute in Hrun. by injection Hrun as <- _ _. }
  repeat split; [done..|].
  refine (proj1 (proj2 (proj2
            (quarantine_destination (H:=env) _ _ _ _ _ _ Hrun _)))).
  rewrite Hst. by repeat constructor.
Defined.

End EngineRuns.

(** ** The dry run of a batch against its live run *)

Section mirror_facts.
Context `{Env}.
Implicit Types (sd sl : FolderMover.t) (m : FolderMatch).

Ltac step_cases Hr :=
  match type of Hr with
  | FolderMover.move_folder ?self ?disk ?m = Ok (?r, ?self', ?disk') =>
      pattern r, self', disk';
      match goal with
      | |- ?P r self' disk' =>
          refine (engine_step_elim self disk m P _ _ _ _ _ _ _ r self' disk' Hr)
      end
  end.

(** Freeness of a candidate on two disks that answer alike. *)
Lemma is_free_agree d0 dl dest_root root nm claimed k :
  candidates_agree d0 dl dest_root nm claimed →
  normalize_path dest_root = Ok root → k ≤ ATTEMPTS →
  is_free dl root claimed (candidate nm k)
  = is_free d0 root claimed (candidate nm k).
Proof.
  intros Hc Hroot Hk. unfold is_free.
  destruct (decide (candidate nm k ∈ claimed)) as [Hin|Hnin].
  - rewrite (bool_decide_eq_true_2 _ Hin). simpl. by rewrite !andb_false_r.
  - destruct (Hc root k Hroot Hk Hnin) as [-> _]. done.
Qed.

(** On two disks that answer alike the resolver returns the same path. *)
Lemma resolve_destination_agree d0 dl dest_root nm claimed p p' :
  candidates_agree d0 dl dest_root nm claimed →
  (resolve_destination d0 dest_root nm claimed).1 = Ok p →
  (resolve_destination dl dest_root nm claimed).1 = Ok p' →
  p' = p ∧
  ∀ d, normalize_path p = Ok d →
       os_path_exists dl (check_path d) = os_path_exists d0 (check_path d).
Proof.
  intros Hc H0 Hl.
  destruct (normalize_path dest_root) as [root|e] eqn:Hroot.
  2:{ unfold resolve_destination in H0. by rewrite Hroot in H0. }
  eapply resolve_destination_ok in H0 as (k & Hk & Hp & Hfree & Hlow); [|done].
  eapply resolve_destination_ok in Hl as (k' & Hk' & Hp' & Hfree' & Hlow');
    [|done].
  subst p p'.
  assert (k' = k) as ->.
  { destruct (decide (k' < k)) as [Hlt|Hge].
    - apply Hlow in Hlt. rewrite <-(is_free_agree d0 dl dest_root) in Hlt by done.
      congruence.
    - destruct (decide (k < k')) as [Hlt|?]; [|lia].
      apply Hlow' in Hlt. rewrite (is_free_agree d0 dl dest_root) in Hlt by done.
      congruence. }
  split; [done|]. intros d Hd.
  apply is_free_true in Hfree as [_ Hnin].
  by destruct (Hc root k Hroot Hk Hnin) as [_ Hprim]; apply Hprim.
Qed.

(** The module-level [move_folder], dry on one disk and live on another
    that answers alike. *)
Lemma move_folder_mirror d0 dl src dest a dd b dl' :
  (∀ s, normalize_path src = Ok s → same_answers d0 dl (check_path s)) →
  (∀ d, normalize_path dest = Ok d →
        os_path_exists dl (check_path d) = os_path_exists d0 (check_path d)) →
  move_folder d0 src dest true = Ok (a, dd) →
  move_folder dl src dest false = Ok (b, dl') →
  dd = d0 ∧ mr_dest_path a = mr_dest_path b ∧
  (mr_status b = ERROR ∨
   mr_status a = mr_status b ∧ mr_status b ∈ [SKIPPED_MISSING; SKIPPED_EXISTS] ∨
   mr_status a = DRY_RUN ∧ mr_status b = SUCCESS).
Proof.
  unfold move_folder, same_answers, check_path, mbind, result_bind.
  intros Hs Hd.
  destruct (normalize_path src) as [s|e]; [|done].
  destruct (normalize_path dest) as [d|e]; [|done].
  destruct (Hs s eq_refl) as [-> ->]. rewrite (Hd d eq_refl).
  intros Ha Hb.
  repeat (case_match; simplify_eq/=; try done);
    repeat split; try done;
    first [ by left | by right; left; split; [|repeat constructor]
          | by right; right ].
Qed.

(** The statuses of the two branches that call the module-level
    [move_folder], for a mirrored pair of its statuses. *)
Lemma branch_status_mirror sa sb renamed :
  sb = ERROR ∨
  sa = sb ∧ sb ∈ [SKIPPED_MISSING; SKIPPED_EXISTS] ∨
  sa = DRY_RUN ∧ sb = SUCCESS →
  (main_status sb renamed ≠ ERROR →
   main_status sa renamed = dry_variant (main_status sb renamed)) ∧
  (quarantine_status sb renamed ≠ ERROR →
   quarantine_status sa renamed = dry_variant (quarantine_status sb renamed)).
Proof.
  intros [->|[[-> Hin]|[-> ->]]].
  - by split; vm_compute.
  - set_unfold in Hin. destruct Hin as [->|[->|[]]]; by split; vm_compute.
  - by destruct renamed; split; vm_compute.
Qed.

(** [_resolve_quarantine_destination] touches the quarantine claims only. *)
Lemma resolve_quarantine_destination_config self disk cid nm p self1 :
  FolderMover.resolve_quarantine_destination self disk cid nm = Ok (p, self1) →
  FolderMover.dest_root self1 = FolderMover.dest_root self ∧
  FolderMover.max_moves self1 = FolderMover.max_moves self ∧
  FolderMover.exclude_patterns self1 = FolderMover.exclude_patterns self ∧
  FolderMover.on_dest_exists self1 = FolderMover.on_dest_exists self ∧
  FolderMover.duplicates_action self1 = FolderMover.duplicates_action self ∧
  FolderMover.duplicate_case_ids self1 = FolderMover.duplicate_case_ids self ∧
  FolderMover.normalized_moved_paths self1
  = FolderMover.normalized_moved_paths self ∧
  FolderMover.claimed_names self1 = FolderMover.claimed_names self.
Proof.
  unfold FolderMover.resolve_quarantine_destination, mbind, result_bind.
  repeat case_match; simplify_eq/=; try done; by intros [= <- <-].
Qed.

(** Closes a pair of branches that cannot both have been taken. *)
Ltac absurd_pair :=
  exfalso;
  repeat match goal with
         | Hm : FolderMover.move_folder _ _ _ = Ok _ |- _ => clear Hm
         | Hm : move_folder _ _ _ _ = Ok _ |- _ => clear Hm
         | Hc : candidates_agree _ _ _ _ _ |- _ => clear Hc
         end;
  repeat match goal with
         | Hc : _ ∧ _ |- _ => destruct Hc
         | Ha : resume_key ?m = Ok _, Hb : resume_key ?m = Ok _ |- _ =>
             rewrite Ha in Hb; injection Hb as <-
         end;
  first [ congruence | tauto ].

(** One match handled by a dry engine on the untouched disk and by a live
    engine, in a state that agrees, on a disk that answers alike. *)
Lemma paired_step sd sl d0 dl m rd sd' dd rl sl' dl' :
  agree sd sl →
  FolderMover.dry_run sd = true → FolderMover.dry_run sl = false →
  probes_agree sl d0 dl m →
  FolderMover.move_folder sd d0 m = Ok (rd, sd', dd) →
  FolderMover.move_folder sl dl m = Ok (rl, sl', dl') →
  dd = d0 ∧ agree sd' sl' ∧ mirrors rd rl.
Proof.
  intros Hag Hdry Hlive Hpr Hd Hl.
  destruct sd as [root1 dry1 max1 pats1 ode1 am1 act1 dups1 moved1 cl1 qc1 st1].
  destruct sl as [root2 dry2 max2 pats2 ode2 am2 act2 dups2 moved2 cl2 qc2 st2].
  unfold agree in Hag. simpl in Hag, Hdry, Hlive.
  destruct Hag as (<- & <- & <- & <- & <- & <- & <- & <- & <-).
  subst dry1 dry2.
  destruct Hpr as (Hsrc & Hsrcn & Horig & Hmain & Hquar). simpl in *.
  assert ((path_exists dl (path_join root1 (folder_name m)) = true ∨
           folder_name m ∈ cl1) ↔
          (path_exists d0 (path_join root1 (folder_name m)) = true ∨
           folder_name m ∈ cl1)) as Htaken.
  { destruct (decide (folder_name m ∈ cl1)); [tauto|].
    by rewrite Horig by done. }
  step_cases Hd; cbv beta zeta; intros; simpl in *;
    step_cases Hl; cbv beta zeta; intros; simpl in *.
  all: rewrite ?Hsrc, ?Htaken in *.
  all: try absurd_pair.
  all: try by (unfold agree, mirrors; simpl; repeat split).
  - (* both quarantine *)
    repeat match goal with
           | Hq : FolderMover.resolve_quarantine_destination _ _ _ _ = Ok _
             |- _ =>
               let Hc := fresh "Hcfg" in
               let Hr := fresh "Hres" in
               let Hi := fresh "Hins" in
               pose proof (resolve_quarantine_destination_config _ _ _ _ _ _ Hq)
                 as Hc;
               apply resolve_quarantine_destination_inv in Hq as [Hr Hi];
               simpl in Hc, Hr, Hi
           end.
    match goal with
    | Ha : (resolve_destination d0 ?root ?nm ?cl).1 = Ok ?pa,
      Hb : (resolve_destination dl _ _ _).1 = Ok ?pb |- _ =>
        destruct (resolve_destination_agree d0 dl root nm cl pa pb Hquar Ha Hb)
          as [-> Hdest]
    end.
    match goal with
    | Ha : move_folder d0 ?src ?dest true = Ok (?a, ?da),
      Hb : move_folder dl _ _ false = Ok (?b, ?db) |- _ =>
        destruct (move_folder_mirror d0 dl src dest a da b db Hsrcn Hdest Ha Hb)
          as (-> & Hdp & Hrel)
    end.
    apply (branch_status_mirror _ _
             (negb (bool_decide (path_name p = folder_name m)))) in Hrel
      as [_ Hrel].
    split; [done|]. split.
    + unfold agree. simpl.
      destruct Hcfg as (-> & -> & -> & -> & -> & -> & -> & ->).
      destruct Hcfg0 as (-> & -> & -> & -> & -> & -> & -> & ->).
      rewrite Hins, Hins0. done.
    + unfold mirrors. simpl. done.
  - (* both in the main destination *)
    match goal with
    | Ha : (resolve_destination d0 ?root ?nm ?cl).1 = Ok ?pa,
      Hb : (resolve_destination dl _ _ _).1 = Ok ?pb |- _ =>
        destruct (resolve_destination_agree d0 dl root nm cl pa pb Hmain Ha Hb)
          as [-> Hdest]
    end.
    match goal with
    | Ha : move_folder d0 ?src ?dest true = Ok (?a, ?da),
      Hb : move_folder dl _ _ false = Ok (?b, ?db) |- _ =>
        destruct (move_folder_mirror d0 dl src dest a da b db Hsrcn Hdest Ha Hb)
          as (-> & Hdp & Hrel)
    end.
    apply (branch_status_mirror _ _
             (negb (bool_decide (path_name p = folder_name m)))) in Hrel
      as [Hrel _].
    split; [done|]. split.
    + unfold agree. simpl. done.
    + unfold mirrors. simpl. done.
Qed.

(** A mirrored pair of outcomes counts alike against the budget, unless the
    live outcome is an [ERROR], which does not count. *)
Lemma mirrors_ops a b :
  mirrors a b →
  (mr_status b ∈ OP_STATUSES → mr_status a ∈ OP_STATUSES) ∧
  (mr_status b ≠ ERROR →
   (mr_status a ∈ OP_STATUSES ↔ mr_status b ∈ OP_STATUSES)).
Proof.
  intros (_ & _ & Hst).
  destruct (decide (mr_status b = ERROR)) as [Herr|Hne].
  - split; [|done]. rewrite Herr. intros Hin. exfalso. clear -Hin.
    unfold OP_STATUSES in Hin. set_unfold in Hin. intuition discriminate.
  - rewrite (Hst Hne). clear. unfold OP_STATUSES.
    destruct (mr_status b); simpl;
      (split; [intros Hin|intros _; split; intros Hin]);
      first [ by repeat constructor
            | exfalso; set_unfold in Hin; intuition discriminate ].
Qed.

(** The loops of a dry and of a live [move_all], run side by side. *)
Lemma paired_loop ms :
  ∀ sd sl d0 dl resd resl opsd opsl rd sd' dd rl sl' dl',
    agree sd sl →
    FolderMover.dry_run sd = true → FolderMover.dry_run sl = false →
    (opsl ≤ opsd)%Z →
    undisturbed sl d0 dl ms →
    FolderMover.move_all_loop sd d0 ms resd opsd = Ok (rd, sd', dd) →
    FolderMover.move_all_loop sl dl ms resl opsl = Ok (rl, sl', dl') →
    dd = d0 ∧
    ∃ newd newl,
      rd = resd ++ newd ∧ rl = resl ++ newl ∧
      length newd ≤ length newl ∧
      Forall2 mirrors newd (take (length newd) newl) ∧
      (opsd = opsl → Forall (λ b, mr_status b ≠ ERROR) newl →
       length newd = length newl ∧ agree sd' sl').
Proof.
  induction ms as [|m rest IH];
    intros sd sl d0 dl resd resl opsd opsl rd sd' dd rl sl' dl'
      Hag Hdry Hlive Hops Hund Hd Hl.
  { simpl in Hd, Hl. injection Hd as <- <- <-. injection Hl as <- <- <-.
    split; [done|]. exists [], []. rewrite !app_nil_r.
    split; [done|]. split; [done|]. split; [done|].
    split; [constructor|]. intros _ _. by split. }
  pose proof (move_all_loop_steps _ _ _ _ _ _ _ _ Hl) as (newl0 & Hnewl0 & _).
  pose proof Hag as (_ & Hmax & _).
  simpl in Hd, Hl. rewrite Hmax in Hd.
  set (stopd := match FolderMover.max_moves sl with
                | Some limit => bool_decide (limit ≤ opsd)%Z
                | None => false
                end) in Hd.
  set (stopl := match FolderMover.max_moves sl with
                | Some limit => bool_decide (limit ≤ opsl)%Z
                | None => false
                end) in Hl.
  assert (stopl = true → stopd = true) as Hstop.
  { unfold stopl, stopd. destruct (FolderMover.max_moves sl); [|done].
    intros Hs. apply bool_decide_eq_true_1 in Hs.
    apply bool_decide_eq_true_2. lia. }
  assert (opsd = opsl → stopd = stopl) as Hsame.
  { unfold stopl, stopd. by intros ->. }
  destruct stopd eqn:Hsd.
  { injection Hd as <- <- <-. split; [done|].
    exists [], newl0. rewrite app_nil_r.
    split; [done|]. split; [done|]. split; [simpl; lia|].
    split; [simpl; constructor|]. intros Heq _.
    rewrite <-(Hsame Heq) in Hl.
    assert (resl = rl ∧ sl = sl') as [Hr1 Hr2] by (injection Hl; auto).
    subst sl'. split; [|done].
    apply (f_equal length) in Hnewl0.
    rewrite <-Hr1, length_app in Hnewl0. simpl. lia. }
  destruct stopl eqn:Hsl; [by discriminate (Hstop eq_refl)|].
  unfold mbind, result_bind in Hd, Hl.
  destruct (FolderMover.move_folder sd d0 m) as [[[r1 sd1] dd1]|e] eqn:Hs1;
    [|done].
  destruct (FolderMover.move_folder sl dl m) as [[[r2 sl1] dl1]|e] eqn:Hs2;
    [|done].
  destruct Hund as [Hpr Hrest]. specialize (Hrest _ _ _ Hs2).
  destruct (paired_step _ _ _ _ _ _ _ _ _ _ _ Hag Hdry Hlive Hpr Hs1 Hs2)
    as (-> & Hag1 & Hmir).
  pose proof (engine_step_config _ _ _ _ _ _ Hs1) as (_ & Hdry1 & _).
  pose proof (engine_step_config _ _ _ _ _ _ Hs2) as (_ & Hlive1 & _).
  rewrite Hdry in Hdry1. rewrite Hlive in Hlive1.
  destruct (mirrors_ops _ _ Hmir) as [Hop1 Hop2].
  assert ((if bool_decide (mr_status r2 ∈ OP_STATUSES)
           then opsl + 1 else opsl)
          ≤ (if bool_decide (mr_status r1 ∈ OP_STATUSES)
             then opsd + 1 else opsd))%Z as Hops'.
  { repeat case_bool_decide; try lia. tauto. }
  destruct (IH _ _ _ _ _ _ _ _ _ _ _ _ _ _ Hag1 Hdry1 Hlive1 Hops' Hrest Hd Hl)
    as (-> & newd & newl & -> & -> & Hlen & Hall & Heq).
  split; [done|]. exists (r1 :: newd), (r2 :: newl).
  rewrite <-!app_assoc. simpl.
  split; [done|]. split; [done|]. split; [lia|].
  split; [by constructor|]. intros Hopseq Hnoerr.
  apply Forall_cons in Hnoerr as [Hne Hnl].
  apply Hop2 in Hne.
  destruct Heq as [Hl' Hag']; [|done|].
  { repeat case_bool_decide; try tauto; by subst. }
  split; [lia|done].
Qed.

(** C8 (amended): a dry run of a batch mirrors the live run from the same
    engine and the same disk, provided the live run never disturbs what a
    later match probes, that is, at each match the live disk answers as the
    untouched disk does on the existence of the match's source and of the
    unclaimed candidates of its name.  The dry run leaves the disk as it
    is; it returns no more outcomes than the live run and, match by match,
    the same identifier, the same destination and the dry-run variant of
    the live status unless the live status is [ERROR]; when no live outcome
    is an [ERROR] it returns as many outcomes and claims the same names. *)
Theorem dry_run_mirrors_live self disk matches rd sd dd rl sl dl :
  FolderMover.move_all (FolderMover.with_dry_run self true) disk matches
  = Ok (rd, sd, dd) →
  FolderMover.move_all (FolderMover.with_dry_run self false) disk matches
  = Ok (rl, sl, dl) →
  undisturbed (FolderMover.with_dry_run self false) disk disk matches →
  dd = disk ∧
  length rd ≤ length rl ∧
  Forall2 mirrors rd (take (length rd) rl) ∧
  (Forall (λ b, mr_status b ≠ ERROR) rl →
   length rd = length rl ∧
   FolderMover.claimed_names sd = FolderMover.claimed_names sl ∧
   FolderMover.quarantine_claimed sd = FolderMover.quarantine_claimed sl).
Proof.
  unfold FolderMover.move_all. intros Hd Hl Hund.
  assert (agree (FolderMover.with_dry_run self true)
            (FolderMover.with_dry_run self false)) as Hag
    by (unfold agree; simpl; done).
  destruct (paired_loop _ _ _ _ _ _ _ _ _ _ _ _ _ _ _ Hag eq_refl eq_refl
              (Z.le_refl 0) Hund Hd Hl)
    as (-> & newd & newl & -> & -> & Hlen & Hall & Heq).
  simpl. split; [done|]. split; [done|]. split; [done|].
  intros Hnoerr. destruct (Heq eq_refl Hnoerr) as [Hlen' Hag'].
  split; [done|]. by destruct Hag' as (_ & _ & _ & _ & _ & _ & _ & ? & ?).
Qed.

(** A disk answers as itself. *)
Lemma probes_agree_refl s d m : probes_agree s d d m.
Proof. unfold probes_agree, candidates_agree, same_answers. by repeat split. Qed.

End mirror_facts.

(** ** The dry run on the concrete environment *)

Module MirrorRuns.
Import Sim Examples MirrorExamples.

(** After the first live move the disk answers as before for every
    candidate of the name but the one just claimed. *)
Lemma candidates_after_first_move k :
  k ≤ ATTEMPTS →
  candidate "Case" k = "Case" ∨
  exists_ ["/src/b/Case"; "/dst"; "/dst/Case"] (join "/dst" (candidate "Case" k))
  = exists_ two_sources (join "/dst" (candidate "Case" k)).
Proof.
  assert (bool_decide
            (Forall (λ k, candidate "Case" k = "Case" ∨
                          exists_ ["/src/b/Case"; "/dst"; "/dst/Case"]
                            (join "/dst" (candidate "Case" k))
                          = exists_ two_sources
                              (join "/dst" (candidate "Case" k)))
               (seq 0 (S ATTEMPTS))) = true) as Hall
    by (vm_compute; reflexivity).
  intros Hk. apply bool_decide_eq_true_1 in Hall.
  rewrite Forall_forall in Hall. apply Hall, elem_of_seq. lia.
Qed.

Lemma quarantine_candidates_after_first_move k :
  k ≤ ATTEMPTS →
  exists_ ["/src/b/Case"; "/dst"; "/dst/Case"]
    (join "/dst/_DUPLICATES/2" (candidate "Case" k))
  = exists_ two_sources (join "/dst/_DUPLICATES/2" (candidate "Case" k)).
Proof.
  assert (bool_decide
            (Forall (λ k, exists_ ["/src/b/Case"; "/dst"; "/dst/Case"]
                            (join "/dst/_DUPLICATES/2" (candidate "Case" k))
                          = exists_ two_sources
                              (join "/dst/_DUPLICATES/2" (candidate "Case" k)))
               (seq 0 (S ATTEMPTS))) = true) as Hall
    by (vm_compute; reflexivity).
  intros Hk. apply bool_decide_eq_true_1 in Hall.
  rewrite Forall_forall in Hall. apply Hall, elem_of_seq. lia.
Qed.

(** The first live move. *)
Lemma first_live_move :
  FolderMover.move_folder (H:=env) (FolderMover.with_dry_run plain false)
    two_sources (mkFolderMatch "1" "/src/a/Case" "Case")
  = Ok (mkMoveResult "1" "/src/a/Case" (Some "/dst/Case") SUCCESS
          "Moved successfully",
        FolderMover.count_status
          (FolderMover.claim (FolderMover.with_dry_run plain false) "Case")
          SUCCESS,
        ["/src/b/Case"; "/dst"; "/dst/Case"]).
Proof. vm_compute. reflexivity. Qed.

(** The live run over the two namesakes disturbs no later probe. *)
Lemma namesakes_undisturbed :
  undisturbed (FolderMover.with_dry_run plain false)
    two_sources two_sources namesakes.
Proof.
  split; [apply probes_agree_refl|].
  intros r s' dl' Hstep. rewrite first_live_move in Hstep.
  injection Hstep as <- <- <-.
  split; [|done].
  split; [vm_compute; reflexivity|].
  split; [by intros s [= <-]; split; vm_compute|].
  split.
  { intros Hnot. exfalso. apply Hnot. simpl. set_solver. }
  split.
  - intros root k [= <-] Hk Hnot.
    destruct (candidates_after_first_move k Hk) as [Heq|Heq].
    { exfalso. apply Hnot. simpl. rewrite Heq. set_solver. }
    split; [exact Heq|]. intros d [= <-]. exact Heq.
  - intros root k [= <-] Hk Hnot.
    pose proof (quarantine_candidates_after_first_move k Hk) as Heq.
    split; [exact Heq|]. intros d [= <-]. exact Heq.
Qed.

(** Witness of C8 (amended): the two namesakes, dry and live. *)
Lemma dry_run_mirrors_live_witness :
  match dry_namesakes, live_namesakes with
  | Ok (rd, sd, dd), Ok (rl, sl, dl) =>
      dd = two_sources ∧
      length rd ≤ length rl ∧
      Forall2 mirrors rd (take (length rd) rl) ∧
      (Forall (λ b, mr_status b ≠ ERROR) rl →
       length rd = length rl ∧
       FolderMover.claimed_names sd = FolderMover.claimed_names sl ∧
       FolderMover.quarantine_claimed sd = FolderMover.quarantine_claimed sl)
  | _, _ => False
  end.
Proof.
  destruct dry_namesakes as [[[rd sd] dd]|e] eqn:Hd;
    [|vm_compute in Hd; discriminate].
  destruct live_namesakes as [[[rl sl] dl]|e] eqn:Hl;
    [|vm_compute in Hl; discriminate].
  exact (dry_run_mirrors_live (H:=env) _ _ _ _ _ _ _ _ _ Hd Hl
           namesakes_undisturbed).
Defined.

(** The folder matched by two identifiers is outside the proviso: the
    first live move takes the source of the second match away. *)
Example repeated_source_is_disturbed :
  ¬ undisturbed
      (FolderMover.with_dry_run (engine false None [] ∅ dup_move_all ∅) false)
      disk0 disk0 twice.
Proof.
  intros [_ Hrest].
  assert (∃ r s',
    FolderMover.move_folder (H:=env)
      (FolderMover.with_dry_run (engine false None [] ∅ dup_move_all ∅) false)
      disk0 (mkFolderMatch "1" "/src/C_1_2" "C_1_2")
    = Ok (r, s', ["/dst"; "/dst/C_1_2"])) as (r & s' & Hstep)
    by (vm_compute; do 2 eexists; reflexivity).
  destruct (Hrest _ _ _ Hstep) as [(Hsrc & _) _].
  vm_compute in Hsrc. discriminate.
Qed.

Example namesakes_statuses :
  statuses dry_namesakes
  = Some [(DRY_RUN, Some "/dst/Case"); (DRY_RUN_RENAMED, Some "/dst/Case_1")] ∧
  statuses live_namesakes
  = Some [(SUCCESS, Some "/dst/Case"); (SUCCESS_RENAMED, Some "/dst/Case_1")].
Proof. vm_compute. split; reflexivity. Qed.

End MirrorRuns.

(** ** Who claims the resolved name *)

Section claims_facts.
Context `{Env}.
Implicit Types (self : FolderMover.t) (m : FolderMatch).

Ltac step_cases Hr :=
  match type of Hr with
  | FolderMover.move_folder ?self ?disk ?m = Ok (?r, ?self', ?disk') =>
      pattern r, self', disk';
      match goal with
      | |- ?P r self' disk' =>
          refine (engine_step_elim self disk m P _ _ _ _ _ _ _ r self' disk' Hr)
      end
  end.

(** Closes a branch whose checks contradict the hypotheses. *)
Ltac contra :=
  exfalso;
  repeat match goal with
         | Hc : _ ∧ _ |- _ => destruct Hc
         | Hc : ∃ _, _ |- _ => destruct Hc
         | Ha : resume_key ?m = Ok _, Hb : resume_key ?m = Ok _ |- _ =>
             rewrite Ha in Hb; injection Hb as <-
         end;
  first [ congruence | tauto ].

(** The three ways a step of the engine treats the claimed names. *)
Lemma engine_step_claims self disk m r self' disk' :
  FolderMover.move_folder self disk m = Ok (r, self', disk') →
  let before :=
    default ∅ (FolderMover.quarantine_claimed self !! case_id m) in
  (passes_skips self disk m → quarantines self m →
   ∃ p, (resolve_destination disk
           (path_join (path_join (FolderMover.dest_root self) DUPLICATES_FOLDER)
              (case_id m))
           (folder_name m) before).1 = Ok p ∧
        FolderMover.quarantine_claimed self'
        = <[case_id m := {[path_name p]} ∪ before]>
            (FolderMover.quarantine_claimed self) ∧
        FolderMover.claimed_names self' = FolderMover.claimed_names self) ∧
  (passes_skips self disk m → ¬ quarantines self m →
   ¬ skips_taken self disk m →
   ∃ p, (resolve_destination disk (FolderMover.dest_root self) (folder_name m)
           (FolderMover.claimed_names self)).1 = Ok p ∧
        FolderMover.claimed_names self'
        = {[path_name p]} ∪ FolderMover.claimed_names self ∧
        FolderMover.quarantine_claimed self'
        = FolderMover.quarantine_claimed self) ∧
  (¬ passes_skips self disk m ∨
   ¬ quarantines self m ∧ skips_taken self disk m →
   FolderMover.claimed_names self' = FolderMover.claimed_names self ∧
   FolderMover.quarantine_claimed self'
   = FolderMover.quarantine_claimed self).
Proof.
  intros Hr before. subst before.
  unfold passes_skips, quarantines, skips_taken.
  step_cases Hr; cbv beta zeta; intros; simpl.
  1-4, 6: split; [|split]; intros; [contra..|done].
  - (* quarantine *)
    match goal with
    | Hq : FolderMover.resolve_quarantine_destination _ _ _ _ = Ok _ |- _ =>
        pose proof (resolve_quarantine_destination_claimed _ _ _ _ _ _ Hq)
          as Hcl;
        apply resolve_quarantine_destination_inv in Hq as [Hres Hins]
    end.
    split; [|split].
    + intros _ _. by exists p.
    + intros; contra.
    + intros [Hnp|[Hnq _]]; [|contra]. exfalso. apply Hnp.
      split; [done|]. split; [exists key; split; [done|tauto]|].
      split; [done|]. intros [_ Hskip]. contra.
  - (* the main destination *)
    split; [|split].
    + intros; contra.
    + intros _ _ _. by exists p.
    + intros [Hnp|[_ Htaken]]; [|contra]. exfalso. apply Hnp.
      split; [done|]. split; [exists key; split; [done|tauto]|].
      split; done.
Qed.


(** C10: [resolve_destination] hands back the claimed set it was given, so
    the basename of the path it returns is still unclaimed in that set;
    reserving the basename is done by its callers, after it returns:
    [_resolve_quarantine_destination] adds it to the quarantine set of the
    identifier and to nothing else, and [FolderMover.move_folder] adds it
    to the engine's claimed names exactly when the match gets past the skip
    checks and is resolved in the main destination; a match that is
    quarantined changes only the quarantine set of its identifier, and a
    match that is skipped changes neither. *)
Theorem resolve_destination_frame :
  (∀ disk dest_root nm (claimed : gset string),
     (resolve_destination disk dest_root nm claimed).2 = claimed) ∧
  (∀ disk dest_root root nm (claimed : gset string) p,
     normalize_path dest_root = Ok root →
     (∀ k, k ≤ ATTEMPTS →
           path_name (path_join root (candidate nm k)) = candidate nm k) →
     (resolve_destination disk dest_root nm claimed).1 = Ok p →
     path_name p ∉ (resolve_destination disk dest_root nm claimed).2) ∧
  (∀ self disk cid nm p self',
     FolderMover.resolve_quarantine_destination self disk cid nm = Ok (p, self') →
     let before := default ∅ (FolderMover.quarantine_claimed self !! cid) in
     (resolve_destination disk
        (path_join (path_join (FolderMover.dest_root self) DUPLICATES_FOLDER) cid)
        nm before).1 = Ok p ∧
     FolderMover.quarantine_claimed self'
     = <[cid := {[path_name p]} ∪ before]> (FolderMover.quarantine_claimed self) ∧
     FolderMover.claimed_names self' = FolderMover.claimed_names self) ∧
  (∀ self disk m r self' disk',
     FolderMover.move_folder self disk m = Ok (r, self', disk') →
     let before :=
       default ∅ (FolderMover.quarantine_claimed self !! case_id m) in
     (passes_skips self disk m → quarantines self m →
      ∃ p, (resolve_destination disk
              (path_join
                 (path_join (FolderMover.dest_root self) DUPLICATES_FOLDER)
                 (case_id m))
              (folder_name m) before).1 = Ok p ∧
           FolderMover.quarantine_claimed self'
           = <[case_id m := {[path_name p]} ∪ before]>
               (FolderMover.quarantine_claimed self) ∧
           FolderMover.claimed_names self' = FolderMover.claimed_names self) ∧
     (passes_skips self disk m → ¬ quarantines self m →
      ¬ skips_taken self disk m →
      ∃ p, (resolve_destination disk (FolderMover.dest_root self)
              (folder_name m) (FolderMover.claimed_names self)).1 = Ok p ∧
           FolderMover.claimed_names self'
           = {[path_name p]} ∪ FolderMover.claimed_names self ∧
           FolderMover.quarantine_claimed self'
           = FolderMover.quarantine_claimed self) ∧
     (¬ passes_skips self disk m ∨
      ¬ quarantines self m ∧ skips_taken self disk m →
      FolderMover.claimed_names self' = FolderMover.claimed_names self ∧
      FolderMover.quarantine_claimed self'
      = FolderMover.quarantine_claimed self)).
Proof.
  split; [|split; [|split]].
  - apply resolve_destination_snd.
  - intros disk dest_root root nm claimed p Hroot Hbase Hres.
    rewrite resolve_destination_snd.
    eapply resolve_destination_ok in Hres as (k & Hk & Hp & Hfree & _); [|done].
    subst p. rewrite Hbase by done. by apply is_free_true in Hfree as [_ ?].
  - intros self disk cid nm p self' Hq.
    pose proof (resolve_quarantine_destination_claimed _ _ _ _ _ _ Hq) as Hcl.
    apply resolve_quarantine_destination_inv in Hq as [Hres Hins]. done.
  - intros self disk m r self' disk'. apply engine_step_claims.
Qed.

End claims_facts.

Module ClaimRuns.
Import Sim Examples.

(** Witness of C10: a live move into the main destination claims the
    basename of the resolved path and leaves the quarantine claims alone. *)
Lemma resolve_destination_frame_witness :
  match live_step with
  | Ok (r, self', _) =>
      ∃ p, (resolve_destination disk0 "/dst" "C_1_2" ∅).1 = Ok p ∧
           FolderMover.claimed_names self' = {[path_name p]} ∪ ∅ ∧
           FolderMover.quarantine_claimed self' = ∅
  | Raise _ => False
  end.
Proof.
  destruct live_step as [[[r self'] disk']|e] eqn:Hstep;
    [|vm_compute in Hstep; discriminate].
  destruct (proj2 (proj2 (proj2 (resolve_destination_frame (H:=env))))
              _ _ _ _ _ _ Hstep) as (_ & Hmain & _).
  apply Hmain.
  - split; [reflexivity|]. split.
    + exists "/src/C_1_2". split; [reflexivity|]. simpl. set_solver.
    + split; [vm_compute; reflexivity|]. simpl. set_solver.
  - unfold quarantines. simpl. set_solver.
  - unfold skips_taken. simpl. intros [_ Hskip]. discriminate.
Defined.

Example live_step_claims :
  match live_step with
  | Ok (_, self', _) => bool_decide (FolderMover.claimed_names self' = {["C_1_2"]})
  | Raise _ => false
  end = true.
Proof. vm_compute. reflexivity. Qed.

End ClaimRuns.
